(** * Recommendations service: the routes of [service/routes.py]

    A shallow embedding of the REST handlers and of the query-filter builder
    of the recommendations service, with the properties its specification
    states about them.

    Python values are kept as they flow through the handlers: query strings
    and JSON payloads are dictionaries ([gmap string _]), raised exceptions
    are the [Raise] outcome of a small state-and-exception monad, and the
    Flask globals ([request], [api.payload], [app.logger]) together with the
    database are the fields of one explicit [World]. *)

From Stdlib Require Import Ascii String.
From stdpp Require Import gmap strings pretty.

Local Open Scope Z_scope.
Local Open Scope string_scope.

(** ** Python values *)

(** The values found in parsed query arguments, filters and JSON bodies. *)
Inductive pyval :=
  | VNone
  | VInt (n : Z)
  | VStr (s : string).

#[global] Instance pyval_eq_dec : EqDecision pyval.
Proof. solve_decision. Defined.

(** What [int(x)] does on the value of [request.args.get(..)]: the value is
    [None] (a [TypeError]) or a string that parses or not (a [ValueError]). *)
Inductive int_outcome :=
  | IntOk (n : Z)
  | ValueError
  | TypeError.

(** ** Exceptions and HTTP status codes *)

(** werkzeug's [HTTPException]: [abort(code, description)] raises one, and
    [BadRequest(description)] is the one with code 400. *)
Inductive exn :=
  | HTTPException (code : Z) (description : string).

Module status.
(** The constants of [service.common.status] the routes use. *)
Definition HTTP_200_OK : Z := 200.
Definition HTTP_201_CREATED : Z := 201.
Definition HTTP_204_NO_CONTENT : Z := 204.
Definition HTTP_400_BAD_REQUEST : Z := 400.
Definition HTTP_404_NOT_FOUND : Z := 404.
End status.

Definition BadRequest (description : string) : exn :=
  HTTPException status.HTTP_400_BAD_REQUEST description.

Definition exn_code (e : exn) : Z :=
  match e with HTTPException c _ => c end.

(** ** The record and the table *)

Inductive RecommendationType := cross_sell | up_sell | accessory.
Inductive Status := active | expired | draft.

#[global] Instance RecommendationType_eq_dec : EqDecision RecommendationType.
Proof. solve_decision. Defined.
#[global] Instance Status_eq_dec : EqDecision Status.
Proof. solve_decision. Defined.

(** The columns of a row other than its primary key. *)
Record Columns := mkColumns {
  product_id : Z;
  recommended_id : Z;
  recommendation_type : RecommendationType;
  rec_status : Status;
  like : Z;
  dislike : Z;
  created_at : Z;
  last_updated : Z
}.

(** A [Recommendations] object as a handler holds it: its [id] attribute and
    its other attributes. *)
Record Recommendations := mkRecommendations {
  rec_id : Z;
  columns : Columns
}.

Definition with_like (n : Z) (c : Columns) : Columns :=
  mkColumns (product_id c) (recommended_id c) (recommendation_type c)
            (rec_status c) n (dislike c) (created_at c) (last_updated c).

Definition with_dislike (n : Z) (c : Columns) : Columns :=
  mkColumns (product_id c) (recommended_id c) (recommendation_type c)
            (rec_status c) (like c) n (created_at c) (last_updated c).

Definition with_last_updated (t : Z) (c : Columns) : Columns :=
  mkColumns (product_id c) (recommended_id c) (recommendation_type c)
            (rec_status c) (like c) (dislike c) (created_at c) t.

Definition with_id (i : Z) (r : Recommendations) : Recommendations :=
  mkRecommendations i (columns r).

Definition with_columns (f : Columns → Columns) (r : Recommendations)
  : Recommendations :=
  mkRecommendations (rec_id r) (f (columns r)).

(** ** The world a request runs in *)

Inductive levelname := DEBUG | INFO | ERROR.

(** An argument of a logging call: a value or a dictionary. *)
Inductive logarg :=
  | LVal (v : pyval)
  | LDict (d : gmap string pyval).

(** A record handed to [app.logger]: the format string and its argument are
    kept apart, as the logging module keeps them. *)
Record LogRecord := mkLogRecord {
  log_level : levelname;
  log_msg : string;
  log_arg : logarg
}.

(** [request.args] (the first value of each key of the query string),
    [api.payload], the table of recommendations by primary key, the clock of
    the store, and the log. *)
Record World := mkWorld {
  request_args : gmap string string;
  payload : gmap string pyval;
  db : gmap Z Columns;
  now : Z;
  log : list LogRecord
}.

Definition with_db (f : gmap Z Columns → gmap Z Columns) (w : World)
  : World :=
  mkWorld (request_args w) (payload w) (f (db w)) (now w) (log w).

Definition with_log (f : list LogRecord → list LogRecord) (w : World)
  : World :=
  mkWorld (request_args w) (payload w) (db w) (now w) (f (log w)).

(** ** State and exceptions *)

Inductive result (A : Type) :=
  | Ok (a : A)
  | Raise (e : exn).
Arguments Ok {A} a.
Arguments Raise {A} e.

Definition M (A : Type) : Type := World → result A * World.

Definition ret {A} (a : A) : M A := λ w, (Ok a, w).

Definition bind {A B} (m : M A) (k : A → M B) : M B :=
  λ w, match m w with
       | (Ok a, w') => k a w'
       | (Raise e, w') => (Raise e, w')
       end.

Definition raise {A} (e : exn) : M A := λ w, (Raise e, w).

Definition gets {A} (f : World → A) : M A := λ w, (Ok (f w), w).

Definition modify (f : World → World) : M unit := λ w, (Ok tt, f w).

Notation "x <- c1 ;; c2" := (bind c1 (λ x, c2))
  (at level 100, c1 at next level, right associativity).
Notation "c1 ;; c2" := (bind c1 (λ _, c2))
  (at level 100, right associativity).

(** [abort(code, description)]. *)
Definition abort {A} (code : Z) (description : string) : M A :=
  raise (HTTPException code description).

(** [app.logger.<level>(msg, arg)]. *)
Definition logger (l : levelname) (msg : string) (arg : logarg) : M unit :=
  modify (with_log (λ rs, (rs ++ [mkLogRecord l msg arg])%list)).

(** The status a client sees: the one the handler returned, or the code of
    the exception it raised. *)
Definition status_of {B} (r : result (B * Z)) : Z :=
  match r with
  | Ok (_, s) => s
  | Raise e => exn_code e
  end.

(** ** The filter builder *)

(** [str(l)] for a list of plain strings (printable ASCII with no single
    quote and no backslash, which [repr] prints between single quotes as
    they are), as the f-string of [validate_enum_param] prints
    [valid_options]. The two lists the builder passes are of this kind; on
    other strings Python quotes and escapes differently. *)
Fixpoint repr_items (l : list string) : string :=
  match l with
  | [] => ""
  | [s] => "'" ++ s ++ "'"
  | s :: l' => "'" ++ s ++ "', " ++ repr_items l'
  end.

Definition repr_list (l : list string) : string := "[" ++ repr_items l ++ "]".

(** [k in args and args[k] is not None], with the value when it holds. *)
Definition arg (args : gmap string pyval) (k : string) : option pyval :=
  match args !! k with
  | Some VNone | None => None
  | Some v => Some v
  end.

(** ** The model class, as the routes use it

    [service/models.py] is not among the sources at hand; its methods are
    given here as the specification describes the persistence engine
    (find-by-id, update, delete) and the record's JSON shape. *)

Definition type_name (t : RecommendationType) : string :=
  match t with
  | cross_sell => "cross-sell"
  | up_sell => "up-sell"
  | accessory => "accessory"
  end.

Definition status_name (s : Status) : string :=
  match s with
  | active => "active"
  | expired => "expired"
  | draft => "draft"
  end.

(** Modelled from the spec: [Recommendations.serialize()], which is defined in
    [service/models.py]. The dictionary has the record JSON shape of section 6,
    [{id, product_id, recommended_id, recommendation_type, status, like,
    dislike, created_at, last_updated}]; timestamps are kept as integers. *)
Definition serialize (r : Recommendations) : gmap string pyval :=
  let c := columns r in
  list_to_map
    [ ("id", VInt (rec_id r));
      ("product_id", VInt (product_id c));
      ("recommended_id", VInt (recommended_id c));
      ("recommendation_type", VStr (type_name (recommendation_type c)));
      ("status", VStr (status_name (rec_status c)));
      ("like", VInt (like c));
      ("dislike", VInt (dislike c));
      ("created_at", VInt (created_at c));
      ("last_updated", VInt (last_updated c)) ].

(** Modelled from the spec: [Recommendations.find(id)], which is defined in
    [service/models.py]. Find-by-id of the persistence engine: the row with
    that primary key as an object, or [None]. *)
Definition Recommendations_find (recommendation_id : Z)
  : M (option Recommendations) :=
  t <- gets db ;;
  ret (mkRecommendations recommendation_id <$> t !! recommendation_id).

(** Modelled from the spec: [Recommendations.update()], which is defined in
    [service/models.py]. The store writes the attributes of the object to the
    row of its id and sets [last_updated]; the object then shows what was
    written. *)
Definition Recommendations_update (r : Recommendations) : M Recommendations :=
  t <- gets now ;;
  let r' := with_columns (with_last_updated t) r in
  modify (with_db (insert (rec_id r') (columns r'))) ;;
  ret r'.

(** Modelled from the spec: [Recommendations.delete()], which is defined in
    [service/models.py]. The store removes the row of the object's id. *)
Definition Recommendations_delete (r : Recommendations) : M unit :=
  modify (with_db (delete (rec_id r))).

(** What a handler returns: a body and a status. *)
Inductive body :=
  | JSON (d : gmap string pyval)
  | Text (s : string).

(** A [result] computed without the world, run inside [M]. *)
Definition lift {A} (r : result A) : M A :=
  match r with
  | Ok a => ret a
  | Raise e => raise e
  end.

Section Service.

(** [int(s)] on a string: the integer, or nothing when Python raises
    [ValueError]. *)
Variable int_of_str : string → option Z.

(** [Recommendations.deserialize(data)] of [service/models.py], which the
    routes call and which is not part of [routes.py]: the object with its
    attributes read from the payload, or the exception it raises. *)
Variable deserialize :
  Recommendations → gmap string pyval → result Recommendations.

Definition int_ (v : option string) : int_outcome :=
  match v with
  | None => TypeError
  | Some s =>
      match int_of_str s with
      | Some n => IntOk n
      | None => ValueError
      end
  end.

Definition parse_int_param (param_name : string) : M Z :=
  a <- gets request_args ;;
  match int_ (a !! param_name) with
  | IntOk n => ret n
  | ValueError | TypeError =>
      logger ERROR "Invalid %s" (LVal (VStr param_name)) ;;
      raise (BadRequest "Invalid data type: must be an integer")
  end.

Definition validate_enum_param
    (param_name : string) (value : pyval) (valid_options : list string)
  : M pyval :=
  if bool_decide (value ∈ VStr <$> valid_options) then ret value
  else
    logger ERROR "Invalid %s" (LVal (VStr param_name)) ;;
    raise (BadRequest ("Invalid " ++ param_name ++ ": must be one of "
                       ++ repr_list valid_options)).

Definition filters_from_args (args : gmap string pyval)
  : M (gmap string pyval) :=
  let filters : gmap string pyval := ∅ in
  filters <-
    match arg args "product_id" with
    | Some _ =>
        n <- parse_int_param "product_id" ;;
        ret (<["product_id" := VInt n]> filters)
    | None => ret filters
    end ;;
  filters <-
    match arg args "recommended_id" with
    | Some _ =>
        n <- parse_int_param "recommended_id" ;;
        ret (<["recommended_id" := VInt n]> filters)
    | None => ret filters
    end ;;
  filters <-
    match arg args "page" with
    | Some _ =>
        n <- parse_int_param "page" ;;
        ret (<["page" := VInt n]> filters)
    | None => ret filters
    end ;;
  filters <-
    match arg args "limit" with
    | Some _ =>
        n <- parse_int_param "limit" ;;
        ret (<["limit" := VInt n]> filters)
    | None => ret filters
    end ;;
  filters <-
    match arg args "recommendation_type" with
    | Some value =>
        v <- validate_enum_param "recommendation_type" value
               ["cross-sell"; "up-sell"; "accessory"] ;;
        ret (<["recommendation_type" := v]> filters)
    | None => ret filters
    end ;;
  filters <-
    match arg args "status" with
    | Some value =>
        v <- validate_enum_param "status" value
               ["active"; "expired"; "draft"] ;;
        ret (<["status" := v]> filters)
    | None => ret filters
    end ;;
  filters <-
    match arg args "sort_by" with
    | Some value => ret (<["sort_by" := value]> filters)
    | None => ret filters
    end ;;
  filters <-
    match arg args "order" with
    | Some value => ret (<["order" := value]> filters)
    | None => ret filters
    end ;;
  ret filters.

(** ** The handlers of [/recommendations/{id}] *)

Definition RecommendationResource_get (recommendation_id : Z) : M (body * Z) :=
  logger INFO "Request to Retrieve a recommendation with id [%s]"
         (LVal (VInt recommendation_id)) ;;
  recommendation <- Recommendations_find recommendation_id ;;
  match recommendation with
  | None =>
      abort status.HTTP_404_NOT_FOUND
            ("Recommendation with id '" ++ pretty recommendation_id
             ++ "' was not found.")
  | Some recommendation =>
      ret (JSON (serialize recommendation), status.HTTP_200_OK)
  end.

Definition RecommendationResource_put (recommendation_id : Z) : M (body * Z) :=
  logger INFO "Request to Update a recommendation with id [%s]"
         (LVal (VInt recommendation_id)) ;;
  recommendation <- Recommendations_find recommendation_id ;;
  match recommendation with
  | None =>
      abort status.HTTP_404_NOT_FOUND
            ("Recommendation with id '" ++ pretty recommendation_id
             ++ "' was not found.")
  | Some recommendation =>
      logged <- gets payload ;;
      logger DEBUG "Payload = %s" (LDict logged) ;;
      data <- gets payload ;;
      recommendation <- lift (deserialize recommendation data) ;;
      let recommendation := with_id recommendation_id recommendation in
      recommendation <- Recommendations_update recommendation ;;
      ret (JSON (serialize recommendation), status.HTTP_200_OK)
  end.

Definition RecommendationResource_delete (recommendation_id : Z)
  : M (body * Z) :=
  logger INFO "Request to Delete a recommendation with id [%s]"
         (LVal (VInt recommendation_id)) ;;
  recommendation <- Recommendations_find recommendation_id ;;
  match recommendation with
  | Some recommendation =>
      Recommendations_delete recommendation ;;
      logger INFO "Recommendation with id [%s] was deleted"
             (LVal (VInt recommendation_id))
  | None => ret tt
  end ;;
  ret (Text "", status.HTTP_204_NO_CONTENT).

(** ** The handlers of [/recommendations/{id}/like] and [.../dislike] *)

Definition LikeResource_put (recommendation_id : Z) : M (body * Z) :=
  logger INFO "Request to like a recommendation with id: %d"
         (LVal (VInt recommendation_id)) ;;
  recommendation <- Recommendations_find recommendation_id ;;
  match recommendation with
  | None =>
      abort status.HTTP_404_NOT_FOUND
            ("Recommendation with id [" ++ pretty recommendation_id
             ++ "] was not found.")
  | Some recommendation =>
      let recommendation :=
        with_columns (λ c, with_like (like c + 1) c) recommendation in
      recommendation <- Recommendations_update recommendation ;;
      logger INFO "Recommendation with id [%s] has been liked!"
             (LVal (VInt (rec_id recommendation))) ;;
      ret (JSON (serialize recommendation), status.HTTP_200_OK)
  end.

Definition DislikeResource_put (recommendation_id : Z) : M (body * Z) :=
  logger INFO "Request to dislike a recommendation with id: %d"
         (LVal (VInt recommendation_id)) ;;
  recommendation <- Recommendations_find recommendation_id ;;
  match recommendation with
  | None =>
      abort status.HTTP_404_NOT_FOUND
            ("Recommendation with id [" ++ pretty recommendation_id
             ++ "] was not found.")
  | Some recommendation =>
      let recommendation :=
        with_columns (λ c, with_dislike (dislike c + 1) c) recommendation in
      recommendation <- Recommendations_update recommendation ;;
      logger INFO "Recommendation with id [%s] has been disliked!"
             (LVal (VInt (rec_id recommendation))) ;;
      ret (JSON (serialize recommendation), status.HTTP_200_OK)
  end.

End Service.

(** ** Concrete instances, to run the service *)

(** Python's whitespace among the ASCII characters: tab to carriage return,
    the four separators 28 to 31, and the space. *)
Definition is_space (c : ascii) : bool :=
  let n := Z.of_N (N_of_ascii c) in
  (((9 <=? n) && (n <=? 13)) || ((28 <=? n) && (n <=? 32)))%Z.

Definition digit_value (c : ascii) : option Z :=
  let n := Z.of_N (N_of_ascii c) in
  if ((48 <=? n) && (n <=? 57))%Z then Some (n - 48) else None.

Fixpoint lstrip (l : list ascii) : list ascii :=
  match l with
  | c :: l' => if is_space c then lstrip l' else l
  | [] => []
  end.

(** Decimal digits, with single underscores allowed between two digits.
    [after_digit] says that the character just read was a digit. *)
Fixpoint digits (acc : Z) (after_digit : bool) (l : list ascii) : option Z :=
  match l with
  | [] => if after_digit then Some acc else None
  | c :: l' =>
      match digit_value c with
      | Some d => digits (10 * acc + d) true l'
      | None =>
          if after_digit && bool_decide (c = "_"%char)
          then digits acc false l'
          else None
      end
  end.

(** [int(s)] of Python on the strings made of ASCII characters: surrounding
    whitespace is dropped, one sign is allowed, the rest is [digits]. *)
Definition ascii_int (s : string) : option Z :=
  let l := rev (lstrip (rev (lstrip (list_ascii_of_string s)))) in
  match l with
  | "+"%char :: l' => digits 0 false l'
  | "-"%char :: l' => Z.opp <$> digits 0 false l'
  | _ => digits 0 false l
  end.

Definition type_of_value (v : pyval) : option RecommendationType :=
  match v with
  | VStr "cross-sell" => Some cross_sell
  | VStr "up-sell" => Some up_sell
  | VStr "accessory" => Some accessory
  | _ => None
  end.

Definition status_of_value (v : pyval) : option Status :=
  match v with
  | VStr "active" => Some active
  | VStr "expired" => Some expired
  | VStr "draft" => Some draft
  | _ => None
  end.

Definition counter_of_value (v : option pyval) : Z :=
  match v with
  | Some (VInt n) => n
  | _ => 0
  end.

(** Modelled from the spec: [Recommendations.deserialize(data)], which is
    defined in [service/models.py]. The mutable fields are replaced from the
    payload ([like] and [dislike] default to 0), the two product ids must be
    integers and the type and status must be among the enumerated values,
    else the payload is refused with status 400. An [id] carried by the
    payload is taken over, which is what the routes guard against. *)
Definition deserialize_payload
    (r : Recommendations) (data : gmap string pyval) : result Recommendations :=
  match data !! "product_id", data !! "recommended_id",
        data !! "recommendation_type" ≫= type_of_value,
        data !! "status" ≫= status_of_value with
  | Some (VInt p), Some (VInt q), Some t, Some s =>
      Ok (mkRecommendations
            (match data !! "id" with Some (VInt i) => i | _ => rec_id r end)
            (mkColumns p q t s
                       (counter_of_value (data !! "like"))
                       (counter_of_value (data !! "dislike"))
                       (created_at (columns r)) (last_updated (columns r))))
  | _, _, _, _ => Raise (BadRequest "Invalid Recommendation: bad or missing data")
  end.

(** ** The filter builder, step by step

    [filters_from_args] runs eight guarded assignments in a row. Each one is
    a [step] on the filters built so far, of one of three kinds, and what a
    step does is read off [step_value], which needs only [request.args] and
    the parsed arguments. *)

Inductive kind :=
  | KInt
  | KEnum (valid_options : list string)
  | KPass.

Definition params : list (string * kind) :=
  [ ("product_id", KInt);
    ("recommended_id", KInt);
    ("page", KInt);
    ("limit", KInt);
    ("recommendation_type", KEnum ["cross-sell"; "up-sell"; "accessory"]);
    ("status", KEnum ["active"; "expired"; "draft"]);
    ("sort_by", KPass);
    ("order", KPass) ].

Definition int_params : list string :=
  ["product_id"; "recommended_id"; "page"; "limit"].

Definition invalid_record (param_name : string) : LogRecord :=
  mkLogRecord ERROR "Invalid %s" (LVal (VStr param_name)).

Definition log_append (rs : list LogRecord) (w : World) : World :=
  with_log (λ l, (l ++ rs)%list) w.

Section Steps.

Variable int_of_str : string → option Z.

Definition step (args : gmap string pyval) (p : string * kind)
    (filters : gmap string pyval) : M (gmap string pyval) :=
  match arg args p.1 with
  | Some value =>
      match p.2 with
      | KInt =>
          n <- parse_int_param int_of_str p.1 ;;
          ret (<[p.1 := VInt n]> filters)
      | KEnum valid_options =>
          v <- validate_enum_param p.1 value valid_options ;;
          ret (<[p.1 := v]> filters)
      | KPass => ret (<[p.1 := value]> filters)
      end
  | None => ret filters
  end.

Fixpoint run_steps (args : gmap string pyval) (l : list (string * kind))
    (filters : gmap string pyval) : M (gmap string pyval) :=
  match l with
  | [] => ret filters
  | p :: l' => filters <- step args p filters ;; run_steps args l' filters
  end.

(** The value a step assigns ([None]: the parameter is absent and nothing is
    assigned), or the exception it raises. *)
Definition step_value (ra : gmap string string) (args : gmap string pyval)
    (p : string * kind) : result (option pyval) :=
  match arg args p.1 with
  | Some value =>
      match p.2 with
      | KInt =>
          match int_ int_of_str (ra !! p.1) with
          | IntOk n => Ok (Some (VInt n))
          | ValueError | TypeError =>
              Raise (BadRequest "Invalid data type: must be an integer")
          end
      | KEnum valid_options =>
          if bool_decide (value ∈ VStr <$> valid_options) then Ok (Some value)
          else Raise (BadRequest ("Invalid " ++ p.1 ++ ": must be one of "
                                  ++ repr_list valid_options))
      | KPass => Ok (Some value)
      end
  | None => Ok None
  end.

Fixpoint filters_of (ra : gmap string string) (args : gmap string pyval)
    (l : list (string * kind)) (filters : gmap string pyval)
  : result (gmap string pyval) :=
  match l with
  | [] => Ok filters
  | p :: l' =>
      match step_value ra args p with
      | Ok None => filters_of ra args l' filters
      | Ok (Some v) => filters_of ra args l' (<[p.1 := v]> filters)
      | Raise e => Raise e
      end
  end.

End Steps.

(** The enumerated parameters with their values, the parameters copied as
    they come, and the names of all eight. *)
Definition enum_params : list (string * list string) :=
  [ ("recommendation_type", ["cross-sell"; "up-sell"; "accessory"]);
    ("status", ["active"; "expired"; "draft"]) ].

Definition pass_params : list string := ["sort_by"; "order"].

Definition param_names : list string :=
  ["product_id"; "recommended_id"; "recommendation_type"; "status";
   "page"; "limit"; "sort_by"; "order"].

(** ** Examples to run the service on *)

(** A world with that query string, no payload and an empty table. *)
Definition world_of_query (q : gmap string string) : World :=
  mkWorld q ∅ ∅ 0 [].

(** Parsed arguments with a sort field, a page and a limit left at [None],
    their query string, and the filters they give. *)
Definition example_args : gmap string pyval :=
  {["sort_by" := VStr "anything at all"; "page" := VInt 2; "limit" := VNone]}.

Definition example_query : gmap string string :=
  {["sort_by" := "anything at all"; "page" := "2"]}.

Definition example_filters : gmap string pyval :=
  {["page" := VInt 2; "sort_by" := VStr "anything at all"]}.

(** A request for a status that does not exist. *)
Definition bogus_status_args : gmap string pyval :=
  {["status" := VStr "bogus"]}.

Definition bogus_status_world : World :=
  world_of_query {["status" := "bogus"]}.

(** The same request against a table with one row, liked three times. *)
Definition stocked_world : World :=
  mkWorld {["status" := "bogus"]} ∅
          {[ 1 := mkColumns 10 20 cross_sell active 3 0 100 100 ]} 500 [].

(** A world whose payload asks for another identity. *)
Definition update_world : World :=
  mkWorld ∅
          {[ "id" := VInt 99; "product_id" := VInt 11;
             "recommended_id" := VInt 22;
             "recommendation_type" := VStr "up-sell";
             "status" := VStr "draft"; "like" := VInt 5 ]}
          {[ 1 := mkColumns 10 20 cross_sell active 3 0 100 100 ]} 500 [].

(** A table with two rows, to watch the second while the first is liked. *)
Definition two_rows_world : World :=
  mkWorld ∅ ∅
          {[ 1 := mkColumns 10 20 cross_sell active 3 0 100 100;
             2 := mkColumns 30 40 accessory draft 7 9 200 200 ]} 500 [].

(** Runs a handler whose lookup in the table is known. *)
Ltac run_handler H :=
  unfold RecommendationResource_get, RecommendationResource_put,
    RecommendationResource_delete, LikeResource_put, DislikeResource_put,
    Recommendations_find, Recommendations_update, Recommendations_delete,
    abort, logger, bind, gets, modify, raise, ret;
  simpl; rewrite ?H; simpl.

(** What [like] and [dislike] leave in the row. *)
Definition liked (t : Z) (c : Columns) : Columns :=
  with_last_updated t (with_like (like c + 1) c).

Definition disliked (t : Z) (c : Columns) : Columns :=
  with_last_updated t (with_dislike (dislike c + 1) c).

(** ** The other routes *)

(** A logging call without arguments: the record carries no value. *)
Definition no_arg : logarg := LVal VNone.

(** [GET /health]. *)
Definition health : M (gmap string pyval * Z) :=
  logger INFO "Health check endpoint called" no_arg ;;
  ret ({["status" := VStr "OK"]}, status.HTTP_200_OK).

(** The declared type of a query argument. *)
Inductive argtype := TInt | TStr.

(** [recommendation_args]: the eight [add_argument] calls, each with
    [location="args"] and [required=False]. *)
Definition recommendation_args : list (string * argtype) :=
  [ ("product_id", TInt);
    ("recommended_id", TInt);
    ("recommendation_type", TStr);
    ("status", TStr);
    ("page", TInt);
    ("limit", TInt);
    ("sort_by", TStr);
    ("order", TStr) ].

Section Collection.

Variable int_of_str : string → option Z.

(** [recommendation_args.parse_args()] of flask_restx on [request.args]: the
    dictionary of the parsed arguments, or the exception it aborts with. *)
Variable parse_args : gmap string string → result (gmap string pyval).

(** [Recommendations.find_by_filters(filters)] of [service/models.py], which
    is not part of [routes.py]: the objects the store returns for these
    filters, in its order. *)
Variable find_by_filters :
  gmap string pyval → gmap Z Columns → list Recommendations.

(** [Recommendations.deserialize(data)], as in the handlers above. *)
Variable deserialize :
  Recommendations → gmap string pyval → result Recommendations.

(** [Recommendations()]: the object before anything is read into it. *)
Variable blank : Recommendations.

(** The primary key the store gives to the next row of a table. *)
Variable next_id : gmap Z Columns → Z.

(** [api.url_for(RecommendationResource, recommendation_id=.., _external=True)]. *)
Variable url_for : Z → string.

(** [GET /recommendations]. *)
Definition RecommendationCollection_get : M (list (gmap string pyval) * Z) :=
  logger INFO "Request to list Recommendations..." no_arg ;;
  query <- gets request_args ;;
  args <- lift (parse_args query) ;;
  filters <- filters_from_args int_of_str args ;;
  table <- gets db ;;
  let recommendations := find_by_filters filters table in
  logger INFO "[%s] Recommendations returned"
         (LVal (VInt (Z.of_nat (length recommendations)))) ;;
  let results := serialize <$> recommendations in
  ret (results, status.HTTP_200_OK).

(** Modelled from the spec: [Recommendations.create()], which is defined in
    [service/models.py]. The store assigns the id and both timestamps and
    inserts the row; the object then shows what was written. *)
Definition Recommendations_create (r : Recommendations) : M Recommendations :=
  t <- gets now ;;
  table <- gets db ;;
  let c := columns r in
  let r' :=
    mkRecommendations (next_id table)
      (mkColumns (product_id c) (recommended_id c) (recommendation_type c)
                 (rec_status c) (like c) (dislike c) t t) in
  modify (with_db (insert (rec_id r') (columns r'))) ;;
  ret r'.

(** [POST /recommendations]: the body, the status and the headers. *)
Definition RecommendationCollection_post
  : M (body * Z * list (string * string)) :=
  logger INFO "Request to Create a Recommendation" no_arg ;;
  let recommendation := blank in
  logged <- gets payload ;;
  logger DEBUG "Payload = %s" (LDict logged) ;;
  data <- gets payload ;;
  recommendation <- lift (deserialize recommendation data) ;;
  recommendation <- Recommendations_create recommendation ;;
  logger INFO "Recommendation with new id [%s] created!"
         (LVal (VInt (rec_id recommendation))) ;;
  let location_url := url_for (rec_id recommendation) in
  ret (JSON (serialize recommendation), status.HTTP_201_CREATED,
       [("Location", location_url)]).

End Collection.

(** ** Requests one after the other *)

(** The world when the next request arrives: the clock of the store reads
    [t], everything else is as the last request left it. *)
Definition tick (t : Z) (w : World) : World :=
  mkWorld (request_args w) (payload w) (db w) t (log w).

(** The world after a request, whatever it answered. *)
Definition after {A} (m : M A) (w : World) : World := (m w).2.

(** The like route called once at each of the times [ts]. *)
Definition likes (recommendation_id : Z) (ts : list Z) (w : World) : World :=
  foldl (λ w t, after (LikeResource_put recommendation_id) (tick t w)) w ts.

(** The dislike route called once at each of the times [ts]. *)
Definition dislikes (recommendation_id : Z) (ts : list Z) (w : World)
  : World :=
  foldl (λ w t, after (DislikeResource_put recommendation_id) (tick t w)) w ts.

(** Every counter of the table is at least 0. *)
Definition counters_nonneg (table : gmap Z Columns) : Prop :=
  ∀ k c, table !! k = Some c → (0 ≤ like c)%Z ∧ (0 ≤ dislike c)%Z.

(** What [reqparse] does with the declared arguments on a query string, for
    running the list route: a missing argument is [None], a string argument
    is taken as it is, an integer argument is read with [int] and a value
    that does not read aborts with status 400. *)
Fixpoint parse_declared (int_of_str : string → option Z)
    (decl : list (string * argtype)) (query : gmap string string)
  : result (gmap string pyval) :=
  match decl with
  | [] => Ok ∅
  | (name, ty) :: decl' =>
      match parse_declared int_of_str decl' query with
      | Raise e => Raise e
      | Ok args =>
          match query !! name, ty with
          | None, _ => Ok (<[name := VNone]> args)
          | Some s, TStr => Ok (<[name := VStr s]> args)
          | Some s, TInt =>
              match int_of_str s with
              | Some n => Ok (<[name := VInt n]> args)
              | None => Raise (BadRequest "Input payload validation failed")
              end
          end
      end
  end.

(** A store that returns every row, by increasing id, whatever the filters:
    enough to run the list route. *)
Definition find_all (filters : gmap string pyval) (table : gmap Z Columns)
  : list Recommendations :=
  (λ kc, mkRecommendations kc.1 kc.2) <$> map_to_list table.

(** An autoincrement key: one more than the largest id of the table. *)
Definition max_id_succ (table : gmap Z Columns) : Z :=
  (1 + map_fold (λ k _ m, Z.max k m) 0 table)%Z.

(** ** Notions the properties are stated with *)

(** What a step reads of the parsed arguments: for an integer parameter only
    whether it is there, for the others its value. *)
Definition args_agree (args args' : gmap string pyval) (p : string * kind)
  : Prop :=
  match p.2 with
  | KInt => is_Some (arg args p.1) ↔ is_Some (arg args' p.1)
  | _ => arg args p.1 = arg args' p.1
  end.

(** A page that is not a number and a status that does not exist. *)
Definition two_errors_args : gmap string pyval :=
  {["product_id" := VInt 5; "page" := VStr "x"; "status" := VStr "bogus"]}.

Definition two_errors_world : World :=
  world_of_query {["product_id" := "5"; "page" := "x"; "status" := "bogus"]}.

(** Arguments with a parsed number that differs from the query, a key the
    builder does not know and a limit left at [None], and the same without
    them. *)
Definition noisy_args : gmap string pyval :=
  {["product_id" := VInt 1000; "limit" := VNone; "colour" := VStr "red";
    "order" := VStr "desc"]}.

Definition plain_args : gmap string pyval :=
  {["product_id" := VInt 5; "order" := VStr "desc"]}.

(** Parameters the builder has nothing against: every integer parameter
    that is present reads as an integer in [request.args], and every
    enumerated parameter that is present has one of its values. *)
Definition acceptable (int_of_str : string → option Z)
    (ra : gmap string string) (args : gmap string pyval) : Prop :=
  (∀ k, k ∈ int_params → is_Some (arg args k) →
        ∃ n, int_ int_of_str (ra !! k) = IntOk n)
  ∧ (∀ k valid_options v,
       (k, valid_options) ∈ enum_params → arg args k = Some v →
       v ∈ VStr <$> valid_options).

(** The strings that Python's [repr] prints between single quotes with
    nothing escaped: printable ASCII with no single quote and no
    backslash. On these [repr_list] is [str] of the list. *)
Definition plain_char (a : ascii) : bool :=
  let n := nat_of_ascii a in
  (32 <=? n)%nat && (n <=? 126)%nat && negb (n =? 39)%nat
  && negb (n =? 92)%nat.

Definition plain (s : string) : bool :=
  forallb plain_char (list_ascii_of_string s).

(** A request that touched nothing but the log: the query string, the
    payload and the clock are as before, and the log has only grown. *)
Definition only_logged (w w' : World) : Prop :=
  request_args w' = request_args w
  ∧ payload w' = payload w
  ∧ now w' = now w
  ∧ log w `prefix_of` log w'.

(** Closes a goal that a request touched nothing but the log, once the
    handler has been run. *)
Ltac only_logged_done :=
  unfold only_logged; simpl; repeat split;
  rewrite <- ?app_assoc; by apply prefix_app_r.

(** The object [create] leaves: the attributes of [r] under the id [i], with
    both timestamps at [t]. *)
Definition created (i t : Z) (r : Recommendations) : Recommendations :=
  let c := columns r in
  mkRecommendations i
    (mkColumns (product_id c) (recommended_id c) (recommendation_type c)
               (rec_status c) (like c) (dislike c) t t).

(** An argument parser that lets an integer argument through only when
    [int] reads its text in the query string. *)
Definition reads_ints (int_of_str : string → option Z)
    (parse_args : gmap string string → result (gmap string pyval)) : Prop :=
  ∀ query args k,
    parse_args query = Ok args → k ∈ int_params → is_Some (arg args k) →
    ∃ n, int_ int_of_str (query !! k) = IntOk n.

(** A query string for the list route and a payload for the create route. *)
Definition list_world : World :=
  mkWorld {["product_id" := "10"; "status" := "active"]} ∅
          (db two_rows_world) 500 [].

Definition create_world : World :=
  mkWorld ∅ (payload update_world) (db two_rows_world) 500 [].

Definition example_blank : Recommendations :=
  mkRecommendations 0 (mkColumns 0 0 cross_sell active 0 0 0 0).

Definition example_url_for (i : Z) : string :=
  "/recommendations/" ++ pretty i.

(** ** The filter builder: facts about its steps *)

Section StepsFacts.

Variable int_of_str : string → option Z.

(** *** The code is the sequence of its steps *)

Lemma filters_from_args_steps args :
  filters_from_args int_of_str args = run_steps int_of_str args params ∅.
Proof. reflexivity. Qed.

Lemma step_run args p f w :
  step int_of_str args p f w =
  match step_value int_of_str (request_args w) args p with
  | Ok None => (Ok f, w)
  | Ok (Some v) => (Ok (<[p.1 := v]> f), w)
  | Raise e => (Raise e, log_append [invalid_record p.1] w)
  end.
Proof.
  destruct p as [k kd]. unfold step, step_value. simpl.
  destruct (arg args k) as [value|]; [|reflexivity].
  destruct kd as [|opts|]; [| |reflexivity].
  - unfold parse_int_param, bind, gets.
    destruct (int_ int_of_str (request_args w !! k)); reflexivity.
  - unfold validate_enum_param.
    destruct (bool_decide (value ∈ VStr <$> opts)); reflexivity.
Qed.

Lemma run_steps_fst args l : ∀ f w,
  (run_steps int_of_str args l f w).1 =
  filters_of int_of_str (request_args w) args l f.
Proof.
  induction l as [|p l IH]; intros f w; [reflexivity|].
  simpl. unfold bind at 1. rewrite step_run.
  destruct (step_value int_of_str (request_args w) args p) as [[v|]|e];
    simpl; [apply IH | apply IH | reflexivity].
Qed.

(** A run that succeeds leaves the world as it found it. *)
Lemma run_steps_snd_ok args l : ∀ f w f',
  (run_steps int_of_str args l f w).1 = Ok f' →
  (run_steps int_of_str args l f w).2 = w.
Proof.
  induction l as [|p l IH]; intros f w f'; [reflexivity|].
  simpl. unfold bind at 1 2. rewrite step_run.
  destruct (step_value int_of_str (request_args w) args p) as [[v|]|e];
    simpl; [apply IH | apply IH | discriminate].
Qed.

(** A run that fails has written one record to the log, and nothing else. *)
Lemma run_steps_snd args l : ∀ f w,
  ∃ rs, (run_steps int_of_str args l f w).2 = log_append rs w.
Proof.
  induction l as [|p l IH]; intros f w.
  - exists []. destruct w. unfold log_append, with_log. simpl.
    by rewrite app_nil_r.
  - simpl. unfold bind at 1. rewrite step_run.
    destruct (step_value int_of_str (request_args w) args p) as [[v|]|e];
      simpl; [apply IH | apply IH | by eexists].
Qed.

(** *** Properties of the pure reading *)

Lemma filters_of_app ra args (l1 l2 : list (string * kind)) : ∀ f,
  filters_of int_of_str ra args (l1 ++ l2)%list f =
  match filters_of int_of_str ra args l1 f with
  | Ok f1 => filters_of int_of_str ra args l2 f1
  | Raise e => Raise e
  end.
Proof.
  induction l1 as [|p l1 IH]; intros f; [reflexivity|].
  simpl. destruct (step_value int_of_str ra args p) as [[v|]|e]; auto.
Qed.

(** Only the arguments named by the steps matter. *)
Lemma filters_of_ext ra args args' l : ∀ f,
  (∀ p, p ∈ l → arg args p.1 = arg args' p.1) →
  filters_of int_of_str ra args l f = filters_of int_of_str ra args' l f.
Proof.
  induction l as [|p l IH]; intros f Hl; [reflexivity|].
  simpl.
  assert (step_value int_of_str ra args p = step_value int_of_str ra args' p) as ->.
  { unfold step_value. by rewrite (Hl p) by left. }
  assert (∀ q, q ∈ l → arg args q.1 = arg args' q.1) as Hl'.
  { intros q Hq. apply Hl. by right. }
  destruct (step_value int_of_str ra args' p) as [[v|]|e]; auto.
Qed.

(** Every exception of the builder is a [BadRequest]. *)
Lemma filters_of_raise ra args l : ∀ f e,
  filters_of int_of_str ra args l f = Raise e → exn_code e = status.HTTP_400_BAD_REQUEST.
Proof.
  induction l as [|p l IH]; intros f e; simpl; [discriminate|].
  destruct (step_value int_of_str ra args p) as [[v|]|e'] eqn:Hp; eauto.
  intros [= <-]. unfold step_value in Hp.
  destruct (arg args p.1); [|discriminate].
  destruct p.2; repeat case_match; simplify_eq; reflexivity.
Qed.

(** When the builder succeeds, every step has succeeded. *)
Lemma filters_of_ok_steps ra args l : ∀ f f' p,
  filters_of int_of_str ra args l f = Ok f' → p ∈ l →
  ∃ o, step_value int_of_str ra args p = Ok o.
Proof.
  induction l as [|q l IH]; intros f f' p Hok Hp; [by apply elem_of_nil in Hp|].
  simpl in Hok. apply elem_of_cons in Hp as [->|Hp].
  - destruct (step_value int_of_str ra args q) as [o|]; [by eexists|discriminate].
  - destruct (step_value int_of_str ra args q) as [[v|]|]; [eauto .. | discriminate].
Qed.

(** The keys of the result: those it started with and those assigned. *)
Lemma filters_of_keys ra args l : ∀ f f' k,
  filters_of int_of_str ra args l f = Ok f' →
  is_Some (f' !! k) ↔
  is_Some (f !! k) ∨ (k ∈ l.*1 ∧ is_Some (arg args k)).
Proof.
  induction l as [|p l IH]; intros f f' k Hok; simpl in *.
  - injection Hok as <-. split; [auto|]. intros [?|[H _]]; [done|].
    by apply elem_of_nil in H.
  - destruct (step_value int_of_str ra args p) as [[v|]|] eqn:Hp; [| |discriminate].
    + rewrite (IH _ _ k Hok). rewrite lookup_insert_is_Some.
      assert (is_Some (arg args p.1)) as Hsome.
      { unfold step_value in Hp. destruct (arg args p.1); [eauto|discriminate]. }
      rewrite elem_of_cons.
      destruct (decide (p.1 = k)) as [<-|Hne]; intuition (eauto; congruence).
    + rewrite (IH _ _ k Hok).
      assert (arg args p.1 = None) as Hnone.
      { unfold step_value in Hp. destruct (arg args p.1); [|done].
        destruct p.2; repeat case_match; discriminate. }
      rewrite elem_of_cons. split; [intuition eauto|].
      intros [?|[[->|?] Hs]]; [by left | | by right].
      rewrite Hnone in Hs. by destruct Hs.
Qed.

(** A key that no step names keeps its value. *)
Lemma filters_of_other ra args l : ∀ f f' k,
  filters_of int_of_str ra args l f = Ok f' → k ∉ l.*1 → f' !! k = f !! k.
Proof.
  induction l as [|p l IH]; intros f f' k Hok Hk; simpl in *.
  - by injection Hok as <-.
  - apply not_elem_of_cons in Hk as [Hne Hk].
    destruct (step_value int_of_str ra args p) as [[v|]|]; [| |discriminate].
    + rewrite (IH _ _ k Hok Hk). by rewrite lookup_insert_ne.
    + by apply IH.
Qed.

(** With no key named twice, the result holds the value each step assigned. *)
Lemma filters_of_value ra args l : ∀ f f' p v,
  NoDup l.*1 → filters_of int_of_str ra args l f = Ok f' → p ∈ l →
  step_value int_of_str ra args p = Ok (Some v) → f' !! p.1 = Some v.
Proof.
  induction l as [|q l IH]; intros f f' p v Hnd Hok Hp Hv;
    [by apply elem_of_nil in Hp|].
  simpl in *. apply NoDup_cons in Hnd as [Hq Hnd].
  apply elem_of_cons in Hp as [->|Hp].
  - rewrite Hv in Hok. rewrite (filters_of_other _ _ _ _ _ _ Hok Hq).
    by rewrite lookup_insert_eq.
  - destruct (step_value int_of_str ra args q) as [[u|]|]; [eauto .. | discriminate].
Qed.

Lemma params_NoDup : NoDup params.*1.
Proof. refine (bool_decide_unpack (NoDup params.*1) _). vm_compute. exact I. Qed.

End StepsFacts.

Lemma arg_insert_ne args k k' v : k ≠ k' → arg (<[k:=v]> args) k' = arg args k'.
Proof. intros Hne. unfold arg. by rewrite lookup_insert_ne. Qed.

Lemma arg_insert_eq args k v : v ≠ VNone → arg (<[k:=v]> args) k = Some v.
Proof. intros Hv. unfold arg. rewrite lookup_insert_eq. by destruct v. Qed.

Lemma arg_empty k : arg ∅ k = None.
Proof. unfold arg. by rewrite lookup_empty. Qed.

Lemma int_params_steps k : k ∈ int_params → (k, KInt) ∈ params.
Proof.
  unfold int_params, params. rewrite !elem_of_cons.
  intros [->|[->|[->|[->|H]]]]; [| | | |by apply elem_of_nil in H];
    repeat first [by left | right].
Qed.

Lemma enum_params_steps k opts :
  (k, opts) ∈ enum_params → (k, KEnum opts) ∈ params.
Proof.
  unfold enum_params, params. rewrite !elem_of_cons.
  intros [[= -> ->]|[[= -> ->]|H]]; [| |by apply elem_of_nil in H];
    repeat first [by left | right].
Qed.

Lemma pass_params_steps k : k ∈ pass_params → (k, KPass) ∈ params.
Proof.
  unfold pass_params, params. rewrite !elem_of_cons.
  intros [->|[->|H]]; [| |by apply elem_of_nil in H];
    repeat first [by left | right].
Qed.

(** The four integer parameters are read first: if one of them is given and
    cannot be read, that is the exception of the whole builder. *)
Lemma filters_of_int_raise int_of_str ra args l : ∀ f p,
  (∀ q, q ∈ l → q.2 = KInt) → p ∈ l →
  is_Some (arg args p.1) →
  (∀ n, int_ int_of_str (ra !! p.1) ≠ IntOk n) →
  filters_of int_of_str ra args l f =
  Raise (BadRequest "Invalid data type: must be an integer").
Proof.
  induction l as [|q l IH]; intros f p Hall Hp [v Hv] Hbad;
    [by apply elem_of_nil in Hp|].
  simpl. pose proof (Hall q ltac:(left)) as Hq.
  assert (∀ q', q' ∈ l → q'.2 = KInt) as Hall' by (intros; apply Hall; by right).
  unfold step_value. rewrite Hq.
  apply elem_of_cons in Hp as [->|Hp].
  - rewrite Hv.
    destruct (int_ int_of_str (ra !! q.1)) as [n| |] eqn:Hi;
      [by destruct (Hbad n) | done | done].
  - destruct (arg args q.1); [|by eapply IH; eauto].
    destruct (int_ int_of_str (ra !! q.1)); [by eapply IH; eauto | done | done].
Qed.

Lemma filters_of_pass int_of_str ra args k v f :
  k ∈ pass_params → v ≠ VNone →
  filters_of int_of_str ra args params ∅ = Ok f →
  filters_of int_of_str ra (<[k:=v]> args) params ∅ = Ok (<[k:=v]> f).
Proof.
  intros Hk Hv.
  change params with (take 6 params ++ drop 6 params)%list.
  rewrite !filters_of_app.
  rewrite (filters_of_ext int_of_str ra (<[k:=v]> args) args (take 6 params)).
  2:{ intros p Hp. apply arg_insert_ne. intros Heq. subst k.
      unfold pass_params in Hk. simpl in Hp.
      rewrite !elem_of_cons in Hk. rewrite !elem_of_cons in Hp.
      destruct Hk as [Hk|[Hk|Hk]]; [| |by apply elem_of_nil in Hk];
        destruct Hp as [->|[->|[->|[->|[->|[->|Hp]]]]]];
        solve [discriminate Hk | by apply elem_of_nil in Hp]. }
  destruct (filters_of int_of_str ra args (take 6 params) ∅) as [g|e];
    [|discriminate].
  simpl. unfold step_value. simpl.
  unfold pass_params in Hk. rewrite !elem_of_cons in Hk.
  destruct Hk as [->|[->|Hk]]; [| |by apply elem_of_nil in Hk].
  - rewrite (arg_insert_eq _ _ _ Hv), (arg_insert_ne _ "sort_by" "order") by done.
    destruct (arg args "sort_by") as [v0|], (arg args "order") as [o|];
      intros [= <-]; apply (f_equal Ok), map_eq; intros j;
      rewrite !lookup_insert; repeat case_decide; by simplify_eq.
  - rewrite (arg_insert_eq _ _ _ Hv), (arg_insert_ne _ "order" "sort_by") by done.
    destruct (arg args "sort_by") as [v0|], (arg args "order") as [o|];
      intros [= <-]; apply (f_equal Ok), map_eq; intros j;
      rewrite !lookup_insert; repeat case_decide; by simplify_eq.
Qed.

Lemma params_names k : k ∈ params.*1 ↔ k ∈ param_names.
Proof.
  unfold params, param_names. simpl. rewrite !elem_of_cons. intuition idtac.
Qed.

(** A run that fails has written exactly one record, naming a parameter. *)
Lemma run_steps_snd_raise int_of_str args l : ∀ f w e,
  (run_steps int_of_str args l f w).1 = Raise e →
  ∃ k, k ∈ l.*1 ∧
       (run_steps int_of_str args l f w).2 = log_append [invalid_record k] w.
Proof.
  induction l as [|p l IH]; intros f w e; [discriminate|].
  simpl. unfold bind at 1 2. rewrite step_run.
  destruct (step_value int_of_str (request_args w) args p) as [[v|]|e'];
    simpl.
  - intros H. destruct (IH _ _ _ H) as (k & Hk & ->).
    exists k. split; [by right|done].
  - intros H. destruct (IH _ _ _ H) as (k & Hk & ->).
    exists k. split; [by right|done].
  - intros _. exists p.1. split; [by left|done].
Qed.

(** When every step has a value, the builder has a result. *)
Lemma filters_of_steps_ok int_of_str ra args l : ∀ f,
  (∀ p, p ∈ l → ∃ o, step_value int_of_str ra args p = Ok o) →
  ∃ f', filters_of int_of_str ra args l f = Ok f'.
Proof.
  induction l as [|p l IH]; intros f Hall; [by eexists|].
  simpl. destruct (Hall p ltac:(left)) as [o ->].
  assert (∀ q, q ∈ l → ∃ o, step_value int_of_str ra args q = Ok o) as Hl.
  { intros q Hq. apply Hall. by right. }
  destruct o; by apply IH.
Qed.

(** The steps all go through exactly when the integer parameters that are
    present read as integers and the enumerated ones have one of their
    values. *)
Lemma filters_of_ok_iff int_of_str ra args :
  (∃ f, filters_of int_of_str ra args params ∅ = Ok f) ↔
  (∀ k, k ∈ int_params → is_Some (arg args k) →
        ∃ n, int_ int_of_str (ra !! k) = IntOk n)
  ∧ (∀ k valid_options v,
       (k, valid_options) ∈ enum_params → arg args k = Some v →
       v ∈ VStr <$> valid_options).
Proof.
  split.
  - intros [f Hok]. split.
    + intros k Hk [v Hv].
      destruct (filters_of_ok_steps _ _ _ _ _ _ _ Hok (int_params_steps k Hk))
        as [o Ho].
      unfold step_value in Ho. simpl in Ho. rewrite Hv in Ho.
      destruct (int_ int_of_str (ra !! k)); by eauto.
    + intros k opts v Hk Hv.
      destruct (filters_of_ok_steps _ _ _ _ _ _ _ Hok
                  (enum_params_steps k opts Hk)) as [o Ho].
      unfold step_value in Ho. simpl in Ho. rewrite Hv in Ho.
      by case_bool_decide.
  - intros [Hint Henum]. apply filters_of_steps_ok.
    intros [k kd] Hp. unfold step_value. simpl.
    destruct (arg args k) as [v|] eqn:Hv; [|by eexists].
    destruct kd as [|opts|]; [| |by eexists].
    + assert (k ∈ int_params) as Hk.
      { unfold params in Hp. unfold int_params.
        rewrite !elem_of_cons in Hp. rewrite !elem_of_cons.
        destruct Hp as [[= ->]|[[= ->]|[[= ->]|[[= ->]|Hp]]]]; auto.
        destruct Hp as [[=]|[[=]|[[=]|[[=]|Hp]]]]. by apply elem_of_nil in Hp. }
      destruct (Hint k Hk ltac:(eauto)) as [n ->]. by eexists.
    + assert ((k, opts) ∈ enum_params) as Hk.
      { unfold params in Hp. unfold enum_params.
        rewrite !elem_of_cons in Hp. rewrite !elem_of_cons.
        destruct Hp as [[=]|[[=]|[[=]|[[=]|[[= -> ->]|[[= -> ->]|Hp]]]]]]; auto.
        destruct Hp as [[=]|[[=]|Hp]]. by apply elem_of_nil in Hp. }
      rewrite bool_decide_eq_true_2 by eauto. by eexists.
Qed.

(** When the parameters are acceptable the builder has a result. *)
Lemma filters_of_acceptable int_of_str ra args :
  acceptable int_of_str ra args →
  ∃ f, filters_of int_of_str ra args params ∅ = Ok f.
Proof. intros H. by apply filters_of_ok_iff. Qed.

(** A run that raises stops at the first step that is refused: the steps
    before it went through, its exception is the one raised, and the one
    record written names it. *)
Lemma run_steps_raise_first int_of_str args l : ∀ f w e,
  (run_steps int_of_str args l f w).1 = Raise e →
  ∃ l1 p l2,
    l = (l1 ++ p :: l2)%list
    ∧ (∀ q, q ∈ l1 →
            ∃ o, step_value int_of_str (request_args w) args q = Ok o)
    ∧ step_value int_of_str (request_args w) args p = Raise e
    ∧ (run_steps int_of_str args l f w).2 = log_append [invalid_record p.1] w.
Proof.
  induction l as [|p l IH]; intros f w e; [discriminate|].
  simpl. unfold bind at 1 2. rewrite step_run.
  destruct (step_value int_of_str (request_args w) args p) as [[v|]|e'] eqn:Hp;
    simpl.
  - intros H. destruct (IH _ _ _ H) as (l1 & q & l2 & -> & Hall & Hq & Hw).
    exists (p :: l1), q, l2. split; [done|]. split; [|done].
    intros q' Hq'. apply elem_of_cons in Hq' as [->|Hq'];
      [by eexists|by apply Hall].
  - intros H. destruct (IH _ _ _ H) as (l1 & q & l2 & -> & Hall & Hq & Hw).
    exists (p :: l1), q, l2. split; [done|]. split; [|done].
    intros q' Hq'. apply elem_of_cons in Hq' as [->|Hq'];
      [by eexists|by apply Hall].
  - intros [= <-]. exists [], p, l. split; [done|]. split; [|done].
    intros q Hq. by apply elem_of_nil in Hq.
Qed.

(** ** The filter builder: the properties *)

(** C3: if one of [product_id], [recommended_id], [page], [limit] is present
    but does not parse as an integer, the filter builder fails with
    [BadRequest] (status 400). If it is present and parses, then the builder
    succeeds whenever the parameters are acceptable, and whenever it succeeds
    the filter specification holds the integer under that key. *)
Theorem filters_from_args_int_params int_of_str args w k :
  k ∈ int_params → is_Some (arg args k) →
  ((∀ n, int_ int_of_str (request_args w !! k) ≠ IntOk n) →
   (filters_from_args int_of_str args w).1 =
   Raise (HTTPException 400 "Invalid data type: must be an integer"))
  ∧ (∀ n, int_ int_of_str (request_args w !! k) = IntOk n →
       (∀ f, (filters_from_args int_of_str args w).1 = Ok f →
             f !! k = Some (VInt n))
       ∧ (acceptable int_of_str (request_args w) args →
          ∃ f, (filters_from_args int_of_str args w).1 = Ok f
               ∧ f !! k = Some (VInt n))).
Proof.
  intros Hk Hsome. rewrite filters_from_args_steps, run_steps_fst. split.
  - intros Hbad.
    change params with (take 4 params ++ drop 4 params)%list.
    rewrite filters_of_app.
    rewrite (filters_of_int_raise int_of_str _ args (take 4 params) ∅ (k, KInt));
      [done | | | done | done].
    + simpl. intros q. rewrite !elem_of_cons.
      intros [->|[->|[->|[->|H]]]]; [done..|by apply elem_of_nil in H].
    + unfold int_params in Hk. simpl. rewrite !elem_of_cons in Hk.
      rewrite !elem_of_cons.
      destruct Hk as [->|[->|[->|[->|H]]]]; [| | | |by apply elem_of_nil in H];
        repeat first [by left | right].
  - intros n Hn.
    assert (∀ f, filters_of int_of_str (request_args w) args params ∅ = Ok f →
                 f !! k = Some (VInt n)) as Hval.
    { intros f Hok.
      apply (filters_of_value int_of_str _ args params ∅ f (k, KInt) (VInt n)
               params_NoDup Hok (int_params_steps k Hk)).
      unfold step_value. simpl. destruct Hsome as [v ->]. by rewrite Hn. }
    split; [exact Hval|].
    intros Hacc. destruct (filters_of_acceptable _ _ _ Hacc) as [f Hf].
    exists f. split; [done|by apply Hval].
Qed.

Lemma filters_from_args_int_params_witness :
  (filters_from_args ascii_int {["product_id" := VStr "abc"]}
     (world_of_query {["product_id" := "abc"]})).1 =
  Raise (HTTPException 400 "Invalid data type: must be an integer")
  ∧ ∃ f, (filters_from_args ascii_int {["limit" := VInt 25]}
            (world_of_query {["limit" := "25"]})).1 = Ok f
         ∧ f !! "limit" = Some (VInt 25).
Proof.
  split.
  - apply (filters_from_args_int_params ascii_int
             {["product_id" := VStr "abc"]}
             (world_of_query {["product_id" := "abc"]}) "product_id").
    + vm_compute. by left.
    + vm_compute. by eexists.
    + intros n. vm_compute. discriminate.
  - apply (filters_from_args_int_params ascii_int {["limit" := VInt 25]}
             (world_of_query {["limit" := "25"]}) "limit").
    + vm_compute. do 3 right. by left.
    + vm_compute. by eexists.
    + vm_compute. reflexivity.
    + split.
      * intros k' Hk' [v Hv]. unfold int_params in Hk'.
        rewrite !elem_of_cons in Hk'.
        destruct Hk' as [->|[->|[->|[->|Hk']]]];
          [discriminate Hv | discriminate Hv | discriminate Hv
          | by exists 25%Z | by apply elem_of_nil in Hk'].
      * intros k' opts v Hk' Hv. unfold enum_params in Hk'.
        rewrite !elem_of_cons in Hk'.
        destruct Hk' as [[= -> ->]|[[= -> ->]|Hk']];
          [discriminate Hv | discriminate Hv | by apply elem_of_nil in Hk'].
Defined.

(** C4: if [recommendation_type] or [status] is present and is not one of
    its enumerated values, the filter builder fails with [BadRequest]
    (status 400). If it is present and the builder succeeds, the value is one
    of them and is in the filter specification as it was given; and the
    builder does succeed, with the value under its key, whenever the
    parameters are acceptable. *)
Theorem filters_from_args_enum_params int_of_str args w k valid_options v :
  (k, valid_options) ∈ enum_params → arg args k = Some v →
  (v ∉ (VStr <$> valid_options) →
   ∃ description,
     (filters_from_args int_of_str args w).1 =
     Raise (HTTPException 400 description))
  ∧ (∀ f, (filters_from_args int_of_str args w).1 = Ok f →
          v ∈ VStr <$> valid_options ∧ f !! k = Some v)
  ∧ (acceptable int_of_str (request_args w) args →
     ∃ f, (filters_from_args int_of_str args w).1 = Ok f ∧ f !! k = Some v).
Proof.
  intros Hk Hv. rewrite filters_from_args_steps, run_steps_fst.
  apply enum_params_steps in Hk.
  assert (step_value int_of_str (request_args w) args (k, KEnum valid_options)
          = if bool_decide (v ∈ VStr <$> valid_options) then Ok (Some v)
            else Raise (BadRequest ("Invalid " ++ k ++ ": must be one of "
                                    ++ repr_list valid_options))) as Hstep.
  { unfold step_value. simpl. by rewrite Hv. }
  assert (∀ f, filters_of int_of_str (request_args w) args params ∅ = Ok f →
               v ∈ VStr <$> valid_options ∧ f !! k = Some v) as Hval.
  { intros f Hok.
    destruct (filters_of_ok_steps _ _ _ _ _ _ _ Hok Hk) as [o Ho].
    rewrite Hstep in Ho. case_bool_decide as Hin; [|discriminate].
    split; [done|].
    apply (filters_of_value int_of_str _ args params ∅ f
             (k, KEnum valid_options) v params_NoDup Hok Hk).
    rewrite Hstep. by rewrite ?bool_decide_eq_true_2. }
  split; [|split].
  - intros Hbad. rewrite bool_decide_eq_false_2 in Hstep by done.
    destruct (filters_of int_of_str (request_args w) args params ∅)
      as [f|e] eqn:Hrun.
    + destruct (filters_of_ok_steps _ _ _ _ _ _ _ Hrun Hk) as [o Ho].
      congruence.
    + apply filters_of_raise in Hrun. destruct e as [c d]. simpl in Hrun.
      subst c. by exists d.
  - exact Hval.
  - intros Hacc. destruct (filters_of_acceptable _ _ _ Hacc) as [f Hf].
    exists f. split; [done|by apply Hval].
Qed.

Lemma filters_from_args_enum_params_witness :
  (∃ description,
     (filters_from_args ascii_int {["recommendation_type" := VStr "bogus"]}
        (world_of_query {["recommendation_type" := "bogus"]})).1 =
     Raise (HTTPException 400 description))
  ∧ ∃ f, (filters_from_args ascii_int {["status" := VStr "active"]}
            (world_of_query {["status" := "active"]})).1 = Ok f
         ∧ f !! "status" = Some (VStr "active").
Proof.
  split.
  - apply (filters_from_args_enum_params ascii_int
             {["recommendation_type" := VStr "bogus"]}
             (world_of_query {["recommendation_type" := "bogus"]})
             "recommendation_type" ["cross-sell"; "up-sell"; "accessory"]
             (VStr "bogus")).
    + vm_compute. by left.
    + vm_compute. reflexivity.
    + apply (bool_decide_eq_false_1 _). vm_compute. reflexivity.
  - apply (filters_from_args_enum_params ascii_int
             {["status" := VStr "active"]}
             (world_of_query {["status" := "active"]})
             "status" ["active"; "expired"; "draft"] (VStr "active")).
    + vm_compute. right. by left.
    + vm_compute. reflexivity.
    + split.
      * intros k' Hk' [v Hv]. unfold int_params in Hk'.
        rewrite !elem_of_cons in Hk'.
        destruct Hk' as [->|[->|[->|[->|Hk']]]];
          [discriminate Hv | discriminate Hv | discriminate Hv
          | discriminate Hv | by apply elem_of_nil in Hk'].
      * intros k' opts v Hk' Hv. unfold enum_params in Hk'.
        rewrite !elem_of_cons in Hk'.
        destruct Hk' as [[= -> ->]|[[= -> ->]|Hk']];
          [discriminate Hv | | by apply elem_of_nil in Hk'].
        injection Hv as <-. apply (bool_decide_unpack _). vm_compute.
        exact I.
Defined.

(** C5: with no parameter at all the builder gives the empty filter, in
    every world. Whenever the parameters are acceptable the builder
    succeeds, and the filter specification it builds has a key exactly for
    each of the eight parameters that is present, so absent parameters are
    left out; [sort_by] and [order] are copied as given, and whatever value
    they are given the builder goes on to succeed. *)
Theorem filters_from_args_keys int_of_str args w :
  (filters_from_args int_of_str ∅ w).1 = Ok ∅
  ∧ (acceptable int_of_str (request_args w) args →
     ∃ f, (filters_from_args int_of_str args w).1 = Ok f)
  ∧ (∀ f, (filters_from_args int_of_str args w).1 = Ok f →
       (∀ k, is_Some (f !! k) ↔ k ∈ param_names ∧ is_Some (arg args k))
       ∧ (∀ k v, k ∈ pass_params → arg args k = Some v → f !! k = Some v)
       ∧ (∀ k v, k ∈ pass_params → v ≠ VNone →
                 (filters_from_args int_of_str (<[k:=v]> args) w).1 =
                 Ok (<[k:=v]> f))).
Proof.
  rewrite !filters_from_args_steps, !run_steps_fst.
  split; [|split].
  - unfold params. simpl. unfold step_value. simpl.
    by rewrite !arg_empty.
  - apply filters_of_acceptable.
  - intros f Hok. split; [|split].
    + intros k. rewrite (filters_of_keys _ _ _ _ _ _ k Hok).
      rewrite lookup_empty, params_names. split.
      * intros [[? [=]]|?]; done.
      * by right.
    + intros k v Hk Hv.
      apply (filters_of_value int_of_str _ args params ∅ f (k, KPass) v
               params_NoDup Hok (pass_params_steps k Hk)).
      unfold step_value. simpl. by rewrite Hv.
    + intros k v Hk Hv. rewrite filters_from_args_steps, run_steps_fst.
      by apply filters_of_pass.
Qed.

Lemma filters_from_args_keys_witness :
  (filters_from_args ascii_int ∅ (world_of_query ∅)).1 = Ok ∅
  ∧ (filters_from_args ascii_int example_args
       (world_of_query example_query)).1 = Ok example_filters
  ∧ (∀ k, is_Some (example_filters !! k) ↔
          k ∈ param_names ∧ is_Some (arg example_args k))
  ∧ (∀ k v, k ∈ pass_params → arg example_args k = Some v →
            example_filters !! k = Some v)
  ∧ (∀ k v, k ∈ pass_params → v ≠ VNone →
            (filters_from_args ascii_int (<[k:=v]> example_args)
               (world_of_query example_query)).1 =
            Ok (<[k:=v]> example_filters)).
Proof.
  destruct (filters_from_args_keys ascii_int ∅ (world_of_query ∅))
    as (Hempty & _ & _).
  destruct (filters_from_args_keys ascii_int example_args
              (world_of_query example_query)) as (_ & _ & H).
  assert ((filters_from_args ascii_int example_args
             (world_of_query example_query)).1 = Ok example_filters) as Hrun
    by (vm_compute; reflexivity).
  split; [exact Hempty|]. split; [exact Hrun|]. exact (H _ Hrun).
Defined.

(** C9, as the code has it: the builder is a function of the query
    parameters alone, the parsed arguments and [request.args]; two runs on
    the same parameters build the same filters or raise the same exception,
    whatever else the world holds. A run that succeeds changes nothing. A run
    that raises has stopped at the first parameter, in the order of the
    code, that is refused: the exception is the one of that parameter, and
    the run has first handed one record, naming that parameter, to the
    logger, and has changed nothing else. *)
Theorem filters_from_args_deterministic int_of_str args w1 w2 :
  request_args w1 = request_args w2 →
  (filters_from_args int_of_str args w1).1 =
  (filters_from_args int_of_str args w2).1
  ∧ (∀ f, (filters_from_args int_of_str args w1).1 = Ok f →
          (filters_from_args int_of_str args w1).2 = w1)
  ∧ (∀ e, (filters_from_args int_of_str args w1).1 = Raise e →
          ∃ l1 p l2,
            params = (l1 ++ p :: l2)%list
            ∧ (∀ q, q ∈ l1 →
                    ∃ o, step_value int_of_str (request_args w1) args q
                         = Ok o)
            ∧ step_value int_of_str (request_args w1) args p = Raise e
            ∧ (filters_from_args int_of_str args w1).2 =
              log_append [invalid_record p.1] w1).
Proof.
  intros Hra. rewrite !filters_from_args_steps. split; [|split].
  - rewrite !run_steps_fst. by rewrite Hra.
  - intros f. apply run_steps_snd_ok.
  - intros e. apply run_steps_raise_first.
Qed.

Lemma filters_from_args_deterministic_witness :
  (filters_from_args ascii_int bogus_status_args bogus_status_world).1 =
  (filters_from_args ascii_int bogus_status_args stocked_world).1
  ∧ (filters_from_args ascii_int bogus_status_args bogus_status_world).2 =
    log_append [invalid_record "status"] bogus_status_world.
Proof.
  destruct (filters_from_args_deterministic ascii_int bogus_status_args
              bogus_status_world stocked_world ltac:(vm_compute; reflexivity))
    as (Hsame & _ & Hraise).
  split; [exact Hsame|].
  destruct (Hraise
              (HTTPException 400
                 "Invalid status: must be one of ['active', 'expired', 'draft']")
              ltac:(vm_compute; reflexivity))
    as (l1 & p & l2 & Hsplit & Hall & Hp & ->).
  assert (p.1 = "status") as Hname; [|by rewrite Hname].
  unfold params in Hsplit.
  do 8 (destruct l1 as [|? l1]; simpl in Hsplit;
        [injection Hsplit as <- _;
         first [reflexivity | vm_compute in Hp; discriminate Hp]
        |injection Hsplit as _ Hsplit]).
  by destruct l1.
Defined.

(** C9, as the specification words it, fails: refusing [status=bogus] leaves
    a record in the log, so the world after the call is not the world
    before it. *)
Lemma filters_from_args_logs_refusal :
  (filters_from_args ascii_int bogus_status_args bogus_status_world).1 =
  Raise (HTTPException 400
           "Invalid status: must be one of ['active', 'expired', 'draft']")
  ∧ log (filters_from_args ascii_int bogus_status_args bogus_status_world).2 =
    [mkLogRecord ERROR "Invalid %s" (LVal (VStr "status"))]
  ∧ (filters_from_args ascii_int bogus_status_args bogus_status_world).2 ≠
    bogus_status_world.
Proof.
  split; [|split].
  - vm_compute. reflexivity.
  - vm_compute. reflexivity.
  - intros H. apply (f_equal log) in H. vm_compute in H. discriminate.
Qed.

(** ** The handlers: the properties *)

(** The table after like and after dislike. *)
Lemma like_dislike_put_run recommendation_id w c :
  db w !! recommendation_id = Some c →
  db (LikeResource_put recommendation_id w).2 =
  <[recommendation_id := liked (now w) c]> (db w)
  ∧ db (DislikeResource_put recommendation_id w).2 =
    <[recommendation_id := disliked (now w) c]> (db w).
Proof. intros H. split; by run_handler H. Qed.

(** C1: on an id of the table, like (dislike) adds exactly 1 to the like
    (dislike) counter, writes the row back, and returns the updated record
    with status 200; on an id that is not in the table it fails with 404. *)
Theorem like_dislike_put recommendation_id w :
  (∀ c, db w !! recommendation_id = Some c →
        (LikeResource_put recommendation_id w).1 =
        Ok (JSON (serialize (mkRecommendations recommendation_id
                               (liked (now w) c))), 200)
        ∧ db (LikeResource_put recommendation_id w).2 =
          <[recommendation_id := liked (now w) c]> (db w)
        ∧ like (liked (now w) c) = like c + 1
        ∧ (DislikeResource_put recommendation_id w).1 =
          Ok (JSON (serialize (mkRecommendations recommendation_id
                                 (disliked (now w) c))), 200)
        ∧ db (DislikeResource_put recommendation_id w).2 =
          <[recommendation_id := disliked (now w) c]> (db w)
        ∧ dislike (disliked (now w) c) = dislike c + 1)
  ∧ (db w !! recommendation_id = None →
     (LikeResource_put recommendation_id w).1 =
     Raise (HTTPException 404
              ("Recommendation with id [" ++ pretty recommendation_id
               ++ "] was not found."))
     ∧ (DislikeResource_put recommendation_id w).1 =
       Raise (HTTPException 404
                ("Recommendation with id [" ++ pretty recommendation_id
                 ++ "] was not found."))).
Proof.
  split.
  - intros c H. repeat split; by run_handler H.
  - intros H. split; by run_handler H.
Qed.

Lemma like_dislike_put_witness :
  (LikeResource_put 1 stocked_world).1 =
  Ok (JSON (serialize (mkRecommendations 1
              (mkColumns 10 20 cross_sell active 4 0 100 500))), 200)
  ∧ db (LikeResource_put 1 stocked_world).2 !! 1 =
    Some (mkColumns 10 20 cross_sell active 4 0 100 500)
  ∧ db (DislikeResource_put 1 stocked_world).2 !! 1 =
    Some (mkColumns 10 20 cross_sell active 3 1 100 500)
  ∧ (LikeResource_put 2 stocked_world).1 =
    Raise (HTTPException 404 "Recommendation with id [2] was not found.").
Proof.
  pose proof (like_dislike_put 1 stocked_world) as [Hin _].
  specialize (Hin (mkColumns 10 20 cross_sell active 3 0 100 100) eq_refl).
  destruct Hin as (Hl & Hldb & _ & _ & Hddb & _).
  pose proof (like_dislike_put 2 stocked_world) as [_ Hout].
  specialize (Hout eq_refl). destruct Hout as [Hl404 _].
  split; [exact Hl|]. split; [by rewrite Hldb|].
  split; [by rewrite Hddb|exact Hl404].
Defined.

(** C2: delete answers 204 with an empty body whether or not the id is in
    the table, never 404; a row that is there is removed and every other row
    is kept, and when there is no such row the table is left as it was. *)
Theorem delete_idempotent recommendation_id w :
  (RecommendationResource_delete recommendation_id w).1 = Ok (Text "", 204)
  ∧ status_of (RecommendationResource_delete recommendation_id w).1 = 204
  ∧ db (RecommendationResource_delete recommendation_id w).2 =
    delete recommendation_id (db w)
  ∧ db (RecommendationResource_delete recommendation_id w).2
       !! recommendation_id = None
  ∧ (db w !! recommendation_id = None →
     db (RecommendationResource_delete recommendation_id w).2 = db w)
  ∧ db (RecommendationResource_delete recommendation_id
          (RecommendationResource_delete recommendation_id w).2).2 =
    db (RecommendationResource_delete recommendation_id w).2.
Proof.
  assert ((RecommendationResource_delete recommendation_id w).1 =
          Ok (Text "", 204)
          ∧ db (RecommendationResource_delete recommendation_id w).2 =
            delete recommendation_id (db w)) as [Hres Hdb].
  { destruct (db w !! recommendation_id) as [c|] eqn:H.
    - split; by run_handler H.
    - split; run_handler H; [done|]. by rewrite delete_id. }
  assert (∀ w', db w' !! recommendation_id = None →
                db (RecommendationResource_delete recommendation_id w').2 =
                db w') as Hnone.
  { intros w' H. run_handler H. done. }
  repeat split.
  - exact Hres.
  - by rewrite Hres.
  - exact Hdb.
  - rewrite Hdb. apply lookup_delete_eq.
  - apply Hnone.
  - apply Hnone. rewrite Hdb. apply lookup_delete_eq.
Qed.

Lemma delete_idempotent_witness :
  (RecommendationResource_delete 1 stocked_world).1 = Ok (Text "", 204)
  ∧ db (RecommendationResource_delete 1 stocked_world).2 !! 1 = None
  ∧ (RecommendationResource_delete 2 stocked_world).1 = Ok (Text "", 204)
  ∧ db (RecommendationResource_delete 2 stocked_world).2 = db stocked_world.
Proof.
  pose proof (delete_idempotent 1 stocked_world) as (H1 & _ & _ & H1' & _).
  pose proof (delete_idempotent 2 stocked_world) as (H2 & _ & _ & _ & H2' & _).
  split; [exact H1|]. split; [exact H1'|]. split; [exact H2|].
  apply H2'. reflexivity.
Defined.

(** C7: get-by-id returns the serialized row with status 200 when the id is
    in the table, and fails with 404 when it is not; it never changes the
    table. *)
Theorem get_by_id recommendation_id w :
  (∀ c, db w !! recommendation_id = Some c →
        (RecommendationResource_get recommendation_id w).1 =
        Ok (JSON (serialize (mkRecommendations recommendation_id c)), 200))
  ∧ (db w !! recommendation_id = None →
     (RecommendationResource_get recommendation_id w).1 =
     Raise (HTTPException 404
              ("Recommendation with id '" ++ pretty recommendation_id
               ++ "' was not found.")))
  ∧ db (RecommendationResource_get recommendation_id w).2 = db w.
Proof.
  split; [|split].
  - intros c H. by run_handler H.
  - intros H. by run_handler H.
  - destruct (db w !! recommendation_id) as [c|] eqn:H; by run_handler H.
Qed.

Lemma get_by_id_witness :
  (RecommendationResource_get 1 stocked_world).1 =
  Ok (JSON (serialize (mkRecommendations 1
              (mkColumns 10 20 cross_sell active 3 0 100 100))), 200)
  ∧ (RecommendationResource_get 7 stocked_world).1 =
    Raise (HTTPException 404 "Recommendation with id '7' was not found.").
Proof.
  pose proof (get_by_id 1 stocked_world) as (Hin & _ & _).
  pose proof (get_by_id 7 stocked_world) as (_ & Hout & _).
  split; [apply Hin; reflexivity|apply Hout; reflexivity].
Defined.



(** C8: on a row of the table, like changes its like counter and dislike its
    dislike counter, and besides the [last_updated] the store sets, nothing
    else: the row stays under its id with the same product ids, type, status,
    creation time and other counter, every other row is as it was, and no row
    appears or disappears. *)
Theorem like_dislike_frame recommendation_id w c :
  db w !! recommendation_id = Some c →
  (∃ c', db (LikeResource_put recommendation_id w).2 !! recommendation_id =
         Some c'
         ∧ like c' = like c + 1
         ∧ product_id c' = product_id c
         ∧ recommended_id c' = recommended_id c
         ∧ recommendation_type c' = recommendation_type c
         ∧ rec_status c' = rec_status c
         ∧ dislike c' = dislike c
         ∧ created_at c' = created_at c)
  ∧ (∃ c', db (DislikeResource_put recommendation_id w).2 !! recommendation_id =
           Some c'
           ∧ dislike c' = dislike c + 1
           ∧ product_id c' = product_id c
           ∧ recommended_id c' = recommended_id c
           ∧ recommendation_type c' = recommendation_type c
           ∧ rec_status c' = rec_status c
           ∧ like c' = like c
           ∧ created_at c' = created_at c)
  ∧ (∀ j, j ≠ recommendation_id →
          db (LikeResource_put recommendation_id w).2 !! j = db w !! j
          ∧ db (DislikeResource_put recommendation_id w).2 !! j = db w !! j)
  ∧ dom (db (LikeResource_put recommendation_id w).2) = dom (db w)
  ∧ dom (db (DislikeResource_put recommendation_id w).2) = dom (db w).
Proof.
  intros H.
  destruct (like_dislike_put_run recommendation_id w c H) as [Hl Hd].
  rewrite Hl, Hd. repeat split.
  - exists (liked (now w) c). rewrite lookup_insert_eq. by repeat split.
  - exists (disliked (now w) c). rewrite lookup_insert_eq. by repeat split.
  - by rewrite lookup_insert_ne.
  - by rewrite lookup_insert_ne.
  - by apply dom_insert_lookup_L.
  - by apply dom_insert_lookup_L.
Qed.

Lemma like_dislike_frame_witness :
  db (LikeResource_put 1 two_rows_world).2 !! 2 =
  Some (mkColumns 30 40 accessory draft 7 9 200 200)
  ∧ db (DislikeResource_put 1 two_rows_world).2 !! 2 =
    Some (mkColumns 30 40 accessory draft 7 9 200 200)
  ∧ dom (db (LikeResource_put 1 two_rows_world).2) = dom (db two_rows_world).
Proof.
  pose proof (like_dislike_frame 1 two_rows_world
                (mkColumns 10 20 cross_sell active 3 0 100 100) eq_refl)
    as (_ & _ & Hother & Hdom & _).
  destruct (Hother 2 ltac:(discriminate)) as [Hl Hd].
  split; [by rewrite Hl|]. split; [by rewrite Hd|]. exact Hdom.
Defined.

(** C10: get-by-id, update, like and dislike look the id up before they
    change anything: when the id is not in the table each of them fails with
    404 and the table, the request and the clock are what they were; the
    only trace is the line the handler logged on entry. *)
Theorem not_found_leaves_store
    (deserialize : Recommendations → gmap string pyval → result Recommendations)
    recommendation_id w :
  db w !! recommendation_id = None →
  (status_of (RecommendationResource_get recommendation_id w).1 = 404
   ∧ (RecommendationResource_get recommendation_id w).2 =
     log_append
       [mkLogRecord INFO "Request to Retrieve a recommendation with id [%s]"
          (LVal (VInt recommendation_id))] w)
  ∧ (status_of (RecommendationResource_put deserialize recommendation_id w).1
     = 404
     ∧ (RecommendationResource_put deserialize recommendation_id w).2 =
       log_append
         [mkLogRecord INFO "Request to Update a recommendation with id [%s]"
            (LVal (VInt recommendation_id))] w)
  ∧ (status_of (LikeResource_put recommendation_id w).1 = 404
     ∧ (LikeResource_put recommendation_id w).2 =
       log_append
         [mkLogRecord INFO "Request to like a recommendation with id: %d"
            (LVal (VInt recommendation_id))] w)
  ∧ (status_of (DislikeResource_put recommendation_id w).1 = 404
     ∧ (DislikeResource_put recommendation_id w).2 =
       log_append
         [mkLogRecord INFO "Request to dislike a recommendation with id: %d"
            (LVal (VInt recommendation_id))] w)
  ∧ db (RecommendationResource_get recommendation_id w).2 = db w
  ∧ db (RecommendationResource_put deserialize recommendation_id w).2 = db w
  ∧ db (LikeResource_put recommendation_id w).2 = db w
  ∧ db (DislikeResource_put recommendation_id w).2 = db w.
Proof.
  intros H. repeat split; by run_handler H.
Qed.

Lemma not_found_leaves_store_witness :
  status_of (RecommendationResource_put deserialize_payload 99 update_world).1
  = 404
  ∧ db (RecommendationResource_put deserialize_payload 99 update_world).2 =
    db update_world
  ∧ status_of (LikeResource_put 99 update_world).1 = 404
  ∧ db (LikeResource_put 99 update_world).2 = db update_world.
Proof.
  pose proof (not_found_leaves_store deserialize_payload 99 update_world
                eq_refl)
    as (_ & [Hput _] & [Hlike _] & _ & _ & Hputdb & Hlikedb & _).
  split; [exact Hput|]. split; [exact Hputdb|]. split; [exact Hlike|].
  exact Hlikedb.
Defined.

(** ** More on the filter builder *)

(** The first step that raises decides the run: its exception is the
    exception of the builder, and its record is the one record logged. *)
Lemma run_steps_first_raise int_of_str args l1 p l2 : ∀ f w e,
  (∀ q, q ∈ l1 → ∃ o, step_value int_of_str (request_args w) args q = Ok o) →
  step_value int_of_str (request_args w) args p = Raise e →
  run_steps int_of_str args (l1 ++ p :: l2)%list f w =
  (Raise e, log_append [invalid_record p.1] w).
Proof.
  induction l1 as [|q l1 IH]; intros f w e Hall Hp; simpl.
  - unfold bind. rewrite step_run, Hp. reflexivity.
  - unfold bind at 1. rewrite step_run.
    destruct (Hall q ltac:(left)) as [o ->].
    assert (∀ q', q' ∈ l1 →
              ∃ o, step_value int_of_str (request_args w) args q' = Ok o)
      as Hl by (intros q' Hq'; apply Hall; by right).
    destruct o; by apply IH.
Qed.

Lemma step_ext int_of_str args args' p f w :
  args_agree args args' p →
  step int_of_str args p f w = step int_of_str args' p f w.
Proof.
  destruct p as [k kd]. unfold args_agree, step. simpl.
  destruct kd; [|by intros -> ..].
  intros [H1 H2].
  destruct (arg args k) as [v|], (arg args' k) as [v'|]; try done.
  - by destruct (H1 ltac:(eauto)).
  - by destruct (H2 ltac:(eauto)).
Qed.

Lemma run_steps_ext int_of_str args args' l : ∀ f w,
  (∀ p, p ∈ l → args_agree args args' p) →
  run_steps int_of_str args l f w = run_steps int_of_str args' l f w.
Proof.
  induction l as [|p l IH]; intros f w Hall; [reflexivity|].
  simpl. unfold bind. rewrite (step_ext _ args args') by (apply Hall; left).
  assert (∀ q, q ∈ l → args_agree args args' q) as Hl.
  { intros q Hq. apply Hall. by right. }
  destruct (step int_of_str args' p f w) as [[g|e] w']; [by apply IH|done].
Qed.

(** X1: the builder succeeds exactly when every integer parameter that is
    present reads as an integer in [request.args] and every enumerated
    parameter that is present has one of its values: it refuses nothing
    else. *)
Theorem filters_from_args_succeeds_iff int_of_str args w :
  (∃ f, (filters_from_args int_of_str args w).1 = Ok f) ↔
  (∀ k, k ∈ int_params → is_Some (arg args k) →
        ∃ n, int_ int_of_str (request_args w !! k) = IntOk n)
  ∧ (∀ k valid_options v,
       (k, valid_options) ∈ enum_params → arg args k = Some v →
       v ∈ VStr <$> valid_options).
Proof.
  rewrite filters_from_args_steps, run_steps_fst. apply filters_of_ok_iff.
Qed.

(** X2: the parameters are checked in the order product_id, recommended_id,
    page, limit, recommendation_type, status, and the first one refused ends
    the call: its exception is raised, its name is the one record logged, and
    the parameters after it are not looked at. *)
Theorem filters_from_args_first_error int_of_str args w l1 p l2 e :
  params = (l1 ++ p :: l2)%list →
  (∀ q, q ∈ l1 → ∃ o, step_value int_of_str (request_args w) args q = Ok o) →
  step_value int_of_str (request_args w) args p = Raise e →
  filters_from_args int_of_str args w =
  (Raise e, log_append [invalid_record p.1] w).
Proof.
  intros Hparams Hl1 Hp. rewrite filters_from_args_steps, Hparams.
  by apply run_steps_first_raise.
Qed.

Lemma filters_from_args_first_error_witness :
  filters_from_args ascii_int two_errors_args two_errors_world =
  (Raise (HTTPException 400 "Invalid data type: must be an integer"),
   log_append [invalid_record "page"] two_errors_world).
Proof.
  apply (filters_from_args_first_error ascii_int two_errors_args
           two_errors_world
           [("product_id", KInt); ("recommended_id", KInt)]
           ("page", KInt)
           (drop 3 params)).
  - reflexivity.
  - intros q Hq. rewrite !elem_of_cons in Hq.
    destruct Hq as [->|[->|Hq]]; [| |by apply elem_of_nil in Hq];
      vm_compute; by eexists.
  - vm_compute. reflexivity.
Defined.

(** X3: the builder reads the parsed arguments only under the eight names,
    and a value that is [None] counts as no value. Of an integer parameter it
    reads only whether it is there: the number itself is read again from
    [request.args], so the parsed one makes no difference. *)
Theorem filters_from_args_ext int_of_str args args' w :
  (∀ k, k ∈ int_params → is_Some (arg args k) ↔ is_Some (arg args' k)) →
  (∀ k valid_options, (k, valid_options) ∈ enum_params →
                      arg args k = arg args' k) →
  (∀ k, k ∈ pass_params → arg args k = arg args' k) →
  filters_from_args int_of_str args w = filters_from_args int_of_str args' w.
Proof.
  intros Hint Henum Hpass. rewrite !filters_from_args_steps.
  apply run_steps_ext. intros p Hp. unfold params in Hp.
  rewrite !elem_of_cons in Hp. unfold args_agree.
  destruct Hp as [->|[->|[->|[->|[->|[->|[->|[->|Hp]]]]]]]]; simpl;
    [apply Hint | apply Hint | apply Hint | apply Hint
     | eapply Henum | eapply Henum | apply Hpass | apply Hpass
     | by apply elem_of_nil in Hp];
    first [ by left | by (right; left) | by (do 2 right; left)
          | by (do 3 right; left) ].
Qed.

Lemma filters_from_args_ext_witness :
  filters_from_args ascii_int noisy_args
    (world_of_query {["product_id" := "5"]}) =
  filters_from_args ascii_int plain_args
    (world_of_query {["product_id" := "5"]}).
Proof.
  apply (filters_from_args_ext ascii_int noisy_args plain_args).
  - intros k Hk. unfold int_params in Hk. rewrite !elem_of_cons in Hk.
    destruct Hk as [->|[->|[->|[->|Hk]]]]; [| | | |by apply elem_of_nil in Hk];
      vm_compute; split; intros [? [=]]; by eexists.
  - intros k opts Hk. unfold enum_params in Hk. rewrite !elem_of_cons in Hk.
    destruct Hk as [[= -> ->]|[[= -> ->]|Hk]]; [| |by apply elem_of_nil in Hk];
      vm_compute; reflexivity.
  - intros k Hk. unfold pass_params in Hk. rewrite !elem_of_cons in Hk.
    destruct Hk as [->|[->|Hk]]; [| |by apply elem_of_nil in Hk];
      vm_compute; reflexivity.
Defined.

(** X4: [parse_int_param] returns the integer that [int] reads in the first
    value of the query parameter and changes nothing; a parameter that is not
    in the query at all, like one that does not read as an integer, is
    answered with the same [BadRequest] after one error record. *)
Theorem parse_int_param_outcomes int_of_str param_name w :
  (∀ s n, request_args w !! param_name = Some s → int_of_str s = Some n →
          parse_int_param int_of_str param_name w = (Ok n, w))
  ∧ (request_args w !! param_name = None
     ∨ (∃ s, request_args w !! param_name = Some s ∧ int_of_str s = None) →
     parse_int_param int_of_str param_name w =
     (Raise (HTTPException 400 "Invalid data type: must be an integer"),
      log_append [invalid_record param_name] w)).
Proof.
  unfold parse_int_param, bind, gets, int_. split.
  - intros s n -> ->. reflexivity.
  - intros [->|(s & -> & ->)]; reflexivity.
Qed.

Lemma parse_int_param_outcomes_witness :
  parse_int_param ascii_int "page" (world_of_query {["page" := " 12 "]}) =
  (Ok 12, world_of_query {["page" := " 12 "]})
  ∧ parse_int_param ascii_int "limit" (world_of_query {["page" := " 12 "]}) =
    (Raise (HTTPException 400 "Invalid data type: must be an integer"),
     log_append [invalid_record "limit"]
       (world_of_query {["page" := " 12 "]})).
Proof.
  pose proof (parse_int_param_outcomes ascii_int "page"
                (world_of_query {["page" := " 12 "]})) as [Hok _].
  pose proof (parse_int_param_outcomes ascii_int "limit"
                (world_of_query {["page" := " 12 "]})) as [_ Hbad].
  split.
  - apply (Hok " 12 " 12); reflexivity.
  - apply Hbad. left. reflexivity.
Defined.

(** X5: with options that are plain strings, [validate_enum_param] accepts
    exactly the strings of the list, as they are written: it then returns
    the value and changes nothing. Any other value, a string in another case
    or a number, is refused with a [BadRequest] that names the parameter and
    lists the options, after one error record. *)
Theorem validate_enum_param_outcomes param_name value valid_options w :
  Forall (λ s, plain s = true) valid_options →
  ((∃ s, value = VStr s ∧ s ∈ valid_options) →
   validate_enum_param param_name value valid_options w = (Ok value, w))
  ∧ (¬ (∃ s, value = VStr s ∧ s ∈ valid_options) →
     validate_enum_param param_name value valid_options w =
     (Raise (HTTPException 400
               ("Invalid " ++ param_name ++ ": must be one of "
                ++ repr_list valid_options)),
      log_append [invalid_record param_name] w)).
Proof.
  intros _.
  assert (value ∈ VStr <$> valid_options ↔
          ∃ s, value = VStr s ∧ s ∈ valid_options) as Hin.
  { rewrite list_elem_of_fmap. naive_solver. }
  unfold validate_enum_param. split; intros H.
  - by rewrite bool_decide_eq_true_2 by by apply Hin.
  - rewrite bool_decide_eq_false_2; [reflexivity|]. by rewrite Hin.
Qed.

Lemma validate_enum_param_outcomes_witness :
  validate_enum_param "status" (VStr "draft") ["active"; "expired"; "draft"]
    (world_of_query ∅) = (Ok (VStr "draft"), world_of_query ∅)
  ∧ validate_enum_param "status" (VStr "Draft") ["active"; "expired"; "draft"]
      (world_of_query ∅) =
    (Raise (HTTPException 400
              "Invalid status: must be one of ['active', 'expired', 'draft']"),
     log_append [invalid_record "status"] (world_of_query ∅)).
Proof.
  assert (Forall (λ s, plain s = true) ["active"; "expired"; "draft"])
    as Hplain by (repeat constructor).
  pose proof (validate_enum_param_outcomes "status" (VStr "draft")
                ["active"; "expired"; "draft"] (world_of_query ∅) Hplain)
    as [Hok _].
  pose proof (validate_enum_param_outcomes "status" (VStr "Draft")
                ["active"; "expired"; "draft"] (world_of_query ∅) Hplain)
    as [_ Hbad].
  split.
  - apply Hok. exists "draft". split; [reflexivity|].
    do 2 right. by left.
  - apply Hbad. intros (s & [= <-] & Hs). rewrite !elem_of_cons in Hs.
    destruct Hs as [[=]|[[=]|[[=]|Hs]]]. by apply elem_of_nil in Hs.
Defined.

(** ** More on the handlers *)

(** The table after each handler. *)
Lemma get_db recommendation_id w :
  db (after (RecommendationResource_get recommendation_id) w) = db w.
Proof.
  unfold after.
  destruct (db w !! recommendation_id) as [c|] eqn:H; by run_handler H.
Qed.

Lemma delete_db recommendation_id w :
  db (after (RecommendationResource_delete recommendation_id) w) =
  delete recommendation_id (db w).
Proof.
  unfold after. destruct (db w !! recommendation_id) as [c|] eqn:H.
  - by run_handler H.
  - run_handler H. by rewrite delete_id.
Qed.

Lemma like_dislike_absent recommendation_id w :
  db w !! recommendation_id = None →
  db (after (LikeResource_put recommendation_id) w) = db w
  ∧ db (after (DislikeResource_put recommendation_id) w) = db w.
Proof. intros H. unfold after. split; by run_handler H. Qed.

Lemma put_db deserialize recommendation_id w :
  db (after (RecommendationResource_put deserialize recommendation_id) w) =
  match db w !! recommendation_id with
  | Some c =>
      match deserialize (mkRecommendations recommendation_id c) (payload w)
      with
      | Ok r =>
          <[recommendation_id := with_last_updated (now w) (columns r)]> (db w)
      | Raise _ => db w
      end
  | None => db w
  end.
Proof.
  unfold after. destruct (db w !! recommendation_id) as [c|] eqn:H.
  - run_handler H.
    by destruct (deserialize (mkRecommendations recommendation_id c)
                   (payload w)).
  - by run_handler H.
Qed.

(** X6: liking a row once at each of the times [ts] adds the number of calls
    to its like counter, and disliking it likewise to its dislike counter; the
    other counter, the product ids, type, status and creation time stay, and
    so does every other row. *)
Theorem likes_count recommendation_id ts : ∀ w c,
  db w !! recommendation_id = Some c →
  (∃ c', db (likes recommendation_id ts w) !! recommendation_id = Some c'
         ∧ like c' = like c + Z.of_nat (length ts)
         ∧ dislike c' = dislike c
         ∧ product_id c' = product_id c
         ∧ recommended_id c' = recommended_id c
         ∧ recommendation_type c' = recommendation_type c
         ∧ rec_status c' = rec_status c
         ∧ created_at c' = created_at c)
  ∧ (∃ c', db (dislikes recommendation_id ts w) !! recommendation_id = Some c'
           ∧ dislike c' = dislike c + Z.of_nat (length ts)
           ∧ like c' = like c
           ∧ product_id c' = product_id c
           ∧ recommended_id c' = recommended_id c
           ∧ recommendation_type c' = recommendation_type c
           ∧ rec_status c' = rec_status c
           ∧ created_at c' = created_at c)
  ∧ (∀ j, j ≠ recommendation_id →
          db (likes recommendation_id ts w) !! j = db w !! j
          ∧ db (dislikes recommendation_id ts w) !! j = db w !! j).
Proof.
  induction ts as [|t ts IH]; intros w c H.
  - split; [|split]; [exists c | exists c | done];
      (split; [done|]); simpl; repeat split; lia.
  - assert (db (tick t w) !! recommendation_id = Some c) as Ht by done.
    destruct (like_dislike_put_run recommendation_id (tick t w) c Ht)
      as [Hl Hd].
    assert (db (after (LikeResource_put recommendation_id) (tick t w))
              !! recommendation_id = Some (liked t c)) as Hl'.
    { unfold after. rewrite Hl. apply lookup_insert_eq. }
    assert (db (after (DislikeResource_put recommendation_id) (tick t w))
              !! recommendation_id = Some (disliked t c)) as Hd'.
    { unfold after. rewrite Hd. apply lookup_insert_eq. }
    destruct (IH _ _ Hl') as ((c1 & Hc1 & Hlike1 & Hrest1) & _ & Hother1).
    destruct (IH _ _ Hd') as (_ & (c2 & Hc2 & Hdis2 & Hrest2) & Hother2).
    unfold likes, dislikes in *. simpl.
    split; [|split].
    + exists c1. split; [exact Hc1|]. split; [|exact Hrest1].
      rewrite Hlike1. simpl. lia.
    + exists c2. split; [exact Hc2|]. split; [|exact Hrest2].
      rewrite Hdis2. simpl. lia.
    + intros j Hj. destruct (Hother1 j Hj) as [-> _].
      destruct (Hother2 j Hj) as [_ ->]. unfold after. rewrite Hl, Hd.
      by rewrite !lookup_insert_ne.
Qed.

Lemma likes_count_witness :
  (∃ c', db (likes 1 [501; 502; 503] two_rows_world) !! 1 = Some c'
         ∧ like c' = 3 + Z.of_nat (length [501; 502; 503])
         ∧ dislike c' = 0
         ∧ product_id c' = 10
         ∧ recommended_id c' = 20
         ∧ recommendation_type c' = cross_sell
         ∧ rec_status c' = active
         ∧ created_at c' = 100)
  ∧ db (likes 1 [501; 502; 503] two_rows_world) !! 2 =
    Some (mkColumns 30 40 accessory draft 7 9 200 200).
Proof.
  pose proof (likes_count 1 [501; 502; 503] two_rows_world
                (mkColumns 10 20 cross_sell active 3 0 100 100) eq_refl)
    as (Hl & _ & Hother).
  split; [exact Hl|].
  destruct (Hother 2 ltac:(discriminate)) as [-> _]. reflexivity.
Defined.

Lemma like_dislike_after recommendation_id w c :
  db w !! recommendation_id = Some c →
  db (after (LikeResource_put recommendation_id) w) =
  <[recommendation_id := liked (now w) c]> (db w)
  ∧ db (after (DislikeResource_put recommendation_id) w) =
    <[recommendation_id := disliked (now w) c]> (db w).
Proof. apply like_dislike_put_run. Qed.

(** X7: a like and a dislike of the same row can come in either order: the
    table is the same afterwards. *)
Theorem like_dislike_commute recommendation_id t1 t2 w :
  db (after (DislikeResource_put recommendation_id)
        (tick t2 (after (LikeResource_put recommendation_id) (tick t1 w)))) =
  db (after (LikeResource_put recommendation_id)
        (tick t2 (after (DislikeResource_put recommendation_id) (tick t1 w)))).
Proof.
  destruct (db w !! recommendation_id) as [c|] eqn:H.
  - assert (db (tick t1 w) !! recommendation_id = Some c) as H1 by done.
    destruct (like_dislike_after _ _ _ H1) as [Hl Hd].
    assert (db (tick t2 (after (LikeResource_put recommendation_id)
                           (tick t1 w))) !! recommendation_id =
            Some (liked t1 c)) as Hl2.
    { simpl. rewrite Hl. apply lookup_insert_eq. }
    assert (db (tick t2 (after (DislikeResource_put recommendation_id)
                           (tick t1 w))) !! recommendation_id =
            Some (disliked t1 c)) as Hd2.
    { simpl. rewrite Hd. apply lookup_insert_eq. }
    destruct (like_dislike_after _ _ _ Hl2) as [_ ->].
    destruct (like_dislike_after _ _ _ Hd2) as [-> _].
    simpl. rewrite Hl, Hd. simpl.
    by rewrite !insert_insert_eq.
  - assert (db (tick t1 w) !! recommendation_id = None) as H1 by done.
    destruct (like_dislike_absent _ _ H1) as [Hl Hd].
    assert (db (tick t2 (after (LikeResource_put recommendation_id)
                           (tick t1 w))) !! recommendation_id = None) as Hl2.
    { simpl. by rewrite Hl. }
    assert (db (tick t2 (after (DislikeResource_put recommendation_id)
                           (tick t1 w))) !! recommendation_id = None) as Hd2.
    { simpl. by rewrite Hd. }
    destruct (like_dislike_absent _ _ Hl2) as [_ ->].
    destruct (like_dislike_absent _ _ Hd2) as [-> _].
    simpl. by rewrite Hl, Hd.
Qed.

(** What each handler answers on a row that is there, and that it answers
    404 on one that is not. *)
Lemma get_present recommendation_id w c :
  db w !! recommendation_id = Some c →
  (RecommendationResource_get recommendation_id w).1 =
  Ok (JSON (serialize (mkRecommendations recommendation_id c)), 200).
Proof. intros H. by run_handler H. Qed.

Lemma like_dislike_present recommendation_id w c :
  db w !! recommendation_id = Some c →
  (LikeResource_put recommendation_id w).1 =
  Ok (JSON (serialize (mkRecommendations recommendation_id
                         (liked (now w) c))), 200)
  ∧ (DislikeResource_put recommendation_id w).1 =
    Ok (JSON (serialize (mkRecommendations recommendation_id
                           (disliked (now w) c))), 200).
Proof. intros H. split; by run_handler H. Qed.

Lemma put_present deserialize recommendation_id w c r :
  db w !! recommendation_id = Some c →
  deserialize (mkRecommendations recommendation_id c) (payload w) = Ok r →
  (RecommendationResource_put deserialize recommendation_id w).1 =
  Ok (JSON (serialize (mkRecommendations recommendation_id
                         (with_last_updated (now w) (columns r)))), 200).
Proof. intros H Hr. run_handler H. by rewrite Hr. Qed.

Lemma absent_404 deserialize recommendation_id w :
  db w !! recommendation_id = None →
  status_of (RecommendationResource_get recommendation_id w).1 = 404
  ∧ status_of (RecommendationResource_put deserialize recommendation_id w).1
    = 404
  ∧ status_of (LikeResource_put recommendation_id w).1 = 404
  ∧ status_of (DislikeResource_put recommendation_id w).1 = 404.
Proof. intros H. repeat split; by run_handler H. Qed.

Lemma delete_204 recommendation_id w :
  status_of (RecommendationResource_delete recommendation_id w).1 = 204.
Proof.
  destruct (db w !! recommendation_id) as [c|] eqn:H; by run_handler H.
Qed.

(** X8: what like, dislike and update return is what the row then reads: a
    get of the same id at any later time answers 200 with the same body. *)
Theorem get_after_write deserialize recommendation_id t w c :
  db w !! recommendation_id = Some c →
  (RecommendationResource_get recommendation_id
     (tick t (after (LikeResource_put recommendation_id) w))).1 =
  (LikeResource_put recommendation_id w).1
  ∧ (RecommendationResource_get recommendation_id
       (tick t (after (DislikeResource_put recommendation_id) w))).1 =
    (DislikeResource_put recommendation_id w).1
  ∧ (∀ r, deserialize (mkRecommendations recommendation_id c) (payload w)
          = Ok r →
          (RecommendationResource_get recommendation_id
             (tick t (after (RecommendationResource_put deserialize
                               recommendation_id) w))).1 =
          (RecommendationResource_put deserialize recommendation_id w).1).
Proof.
  intros H.
  destruct (like_dislike_after _ _ _ H) as [Hl Hd].
  destruct (like_dislike_present _ _ _ H) as [-> ->].
  split; [|split].
  - apply get_present. simpl. rewrite Hl. apply lookup_insert_eq.
  - apply get_present. simpl. rewrite Hd. apply lookup_insert_eq.
  - intros r Hr. rewrite (put_present _ _ _ _ _ H Hr).
    apply get_present. simpl. rewrite put_db, H, Hr.
    apply lookup_insert_eq.
Qed.

Lemma get_after_write_witness :
  (RecommendationResource_get 1
     (tick 900 (after (LikeResource_put 1) update_world))).1 =
  (LikeResource_put 1 update_world).1
  ∧ (RecommendationResource_get 1
       (tick 900 (after (RecommendationResource_put deserialize_payload 1)
                    update_world))).1 =
    (RecommendationResource_put deserialize_payload 1 update_world).1.
Proof.
  pose proof (get_after_write deserialize_payload 1 900 update_world
                (mkColumns 10 20 cross_sell active 3 0 100 100) eq_refl)
    as (Hl & _ & Hp).
  split; [exact Hl|].
  apply (Hp (mkRecommendations 99
               (mkColumns 11 22 up_sell draft 5 0 100 100))).
  reflexivity.
Defined.

(** X9: once an id has been deleted, get, update, like and dislike of that
    id answer 404 and a second delete still answers 204, at any later
    time and whatever the table held before. *)
Theorem deleted_is_gone deserialize recommendation_id t w :
  status_of
    (RecommendationResource_get recommendation_id
       (tick t (after (RecommendationResource_delete recommendation_id) w))).1
  = 404
  ∧ status_of
      (RecommendationResource_put deserialize recommendation_id
         (tick t (after (RecommendationResource_delete recommendation_id)
                    w))).1
    = 404
  ∧ status_of
      (LikeResource_put recommendation_id
         (tick t (after (RecommendationResource_delete recommendation_id)
                    w))).1
    = 404
  ∧ status_of
      (DislikeResource_put recommendation_id
         (tick t (after (RecommendationResource_delete recommendation_id)
                    w))).1
    = 404
  ∧ status_of
      (RecommendationResource_delete recommendation_id
         (tick t (after (RecommendationResource_delete recommendation_id)
                    w))).1
    = 204.
Proof.
  assert (db (tick t (after (RecommendationResource_delete recommendation_id)
                        w)) !! recommendation_id = None) as H.
  { simpl. rewrite delete_db. apply lookup_delete_eq. }
  destruct (absent_404 deserialize _ _ H) as (Hg & Hp & Hl & Hd).
  repeat split; [exact Hg | exact Hp | exact Hl | exact Hd |].
  apply delete_204.
Qed.

(** X10: the handlers keep the counters of the table at 0 or above: get,
    delete, like and dislike always, update when the counters that
    [deserialize] read from the payload are. *)
Theorem counters_stay_nonneg deserialize recommendation_id w :
  counters_nonneg (db w) →
  counters_nonneg (db (after (RecommendationResource_get recommendation_id) w))
  ∧ counters_nonneg
      (db (after (RecommendationResource_delete recommendation_id) w))
  ∧ counters_nonneg (db (after (LikeResource_put recommendation_id) w))
  ∧ counters_nonneg (db (after (DislikeResource_put recommendation_id) w))
  ∧ ((∀ c r, db w !! recommendation_id = Some c →
             deserialize (mkRecommendations recommendation_id c) (payload w)
             = Ok r →
             (0 ≤ like (columns r))%Z ∧ (0 ≤ dislike (columns r))%Z) →
     counters_nonneg
       (db (after (RecommendationResource_put deserialize recommendation_id)
              w))).
Proof.
  intros Hinv. split; [|split; [|split; [|split]]].
  - by rewrite get_db.
  - rewrite delete_db. intros k c Hk.
    apply lookup_delete_Some in Hk as [_ Hk]. by apply (Hinv k).
  - destruct (db w !! recommendation_id) as [c|] eqn:H.
    + destruct (like_dislike_after _ _ _ H) as [-> _]. intros k c' Hk.
      apply lookup_insert_Some in Hk as [[_ <-]|[_ Hk]]; [|by apply (Hinv k)].
      destruct (Hinv _ _ H). simpl. lia.
    + by destruct (like_dislike_absent _ _ H) as [-> _].
  - destruct (db w !! recommendation_id) as [c|] eqn:H.
    + destruct (like_dislike_after _ _ _ H) as [_ ->]. intros k c' Hk.
      apply lookup_insert_Some in Hk as [[_ <-]|[_ Hk]]; [|by apply (Hinv k)].
      destruct (Hinv _ _ H). simpl. lia.
    + by destruct (like_dislike_absent _ _ H) as [_ ->].
  - intros Hr. rewrite put_db.
    destruct (db w !! recommendation_id) as [c|] eqn:H; [|done].
    destruct (deserialize (mkRecommendations recommendation_id c) (payload w))
      as [r|e] eqn:Hd; [|done].
    intros k c' Hk.
    apply lookup_insert_Some in Hk as [[_ <-]|[_ Hk]]; [|by apply (Hinv k)].
    by apply (Hr c r).
Qed.

Lemma counters_stay_nonneg_witness :
  counters_nonneg (db (after (LikeResource_put 1) two_rows_world))
  ∧ counters_nonneg
      (db (after (RecommendationResource_delete 2) two_rows_world)).
Proof.
  assert (counters_nonneg (db two_rows_world)) as Hinv.
  { intros k c. simpl. rewrite lookup_insert_Some.
    intros [[_ <-]|[_ Hk]]; [simpl; lia|].
    apply lookup_singleton_Some in Hk as [_ <-]. simpl. lia. }
  pose proof (counters_stay_nonneg deserialize_payload 1 two_rows_world Hinv)
    as (_ & _ & Hl & _).
  pose proof (counters_stay_nonneg deserialize_payload 2 two_rows_world Hinv)
    as (_ & Hd & _).
  split; [exact Hl|exact Hd].
Defined.


(** ** The requests touch nothing but the table and the log *)

Lemma health_only_logged w : only_logged w (after health w).
Proof. unfold after, health, logger, bind, modify, ret. only_logged_done. Qed.

Lemma get_only_logged recommendation_id w :
  only_logged w (after (RecommendationResource_get recommendation_id) w).
Proof.
  unfold after.
  destruct (db w !! recommendation_id) as [c|] eqn:H; run_handler H;
    only_logged_done.
Qed.

Lemma delete_only_logged recommendation_id w :
  only_logged w (after (RecommendationResource_delete recommendation_id) w).
Proof.
  unfold after.
  destruct (db w !! recommendation_id) as [c|] eqn:H; run_handler H;
    only_logged_done.
Qed.

Lemma like_only_logged recommendation_id w :
  only_logged w (after (LikeResource_put recommendation_id) w).
Proof.
  unfold after.
  destruct (db w !! recommendation_id) as [c|] eqn:H; run_handler H;
    only_logged_done.
Qed.

Lemma dislike_only_logged recommendation_id w :
  only_logged w (after (DislikeResource_put recommendation_id) w).
Proof.
  unfold after.
  destruct (db w !! recommendation_id) as [c|] eqn:H; run_handler H;
    only_logged_done.
Qed.

Lemma put_only_logged deserialize recommendation_id w :
  only_logged w
    (after (RecommendationResource_put deserialize recommendation_id) w).
Proof.
  unfold after.
  destruct (db w !! recommendation_id) as [c|] eqn:H; run_handler H;
    [|only_logged_done].
  unfold lift, ret, raise.
  destruct (deserialize (mkRecommendations recommendation_id c) (payload w));
    only_logged_done.
Qed.

(** ** The list route *)

(** The list route, run: the arguments are parsed, the filters are built
    from them, and only then is the store asked. *)
Lemma list_run int_of_str parse_args find_by_filters w :
  RecommendationCollection_get int_of_str parse_args find_by_filters w =
  match parse_args (request_args w) with
  | Raise e =>
      (Raise e,
       log_append [mkLogRecord INFO "Request to list Recommendations..." no_arg]
                  w)
  | Ok args =>
      match filters_of int_of_str (request_args w) args params ∅ with
      | Raise e =>
          (Raise e,
           (filters_from_args int_of_str args
              (log_append
                 [mkLogRecord INFO "Request to list Recommendations..." no_arg]
                 w)).2)
      | Ok f =>
          (Ok (serialize <$> find_by_filters f (db w), 200),
           log_append
             [mkLogRecord INFO "Request to list Recommendations..." no_arg;
              mkLogRecord INFO "[%s] Recommendations returned"
                (LVal (VInt (Z.of_nat
                               (length (find_by_filters f (db w))))))]
             w)
      end
  end.
Proof.
  unfold RecommendationCollection_get, logger, bind, gets, modify, lift, ret,
    raise, log_append.
  cbn [fst snd request_args with_log].
  destruct (parse_args (request_args w)) as [args|e]; [|reflexivity].
  match goal with
  | |- context [filters_from_args ?i ?a ?w1] =>
      pose proof (run_steps_fst i a params ∅ w1) as Hfst;
      pose proof (run_steps_snd_ok i a params ∅ w1) as Hsnd;
      rewrite <- filters_from_args_steps in Hfst, Hsnd;
      destruct (filters_from_args i a w1) as [[g|e] w2]
  end; cbn [fst snd request_args with_log] in Hfst, Hsnd; rewrite <- Hfst;
    [|reflexivity].
  rewrite (Hsnd g eq_refl). unfold with_log. simpl.
  by rewrite <- app_assoc.
Qed.

Lemma filters_from_args_only_logged int_of_str args w :
  only_logged w (filters_from_args int_of_str args w).2.
Proof.
  rewrite filters_from_args_steps.
  destruct (run_steps_snd int_of_str args params ∅ w) as [rs ->].
  unfold log_append, with_log, only_logged. simpl.
  repeat split. by apply prefix_app_r.
Qed.

Lemma list_only_logged int_of_str parse_args find_by_filters w :
  only_logged w
    (after (RecommendationCollection_get int_of_str parse_args
              find_by_filters) w).
Proof.
  unfold after. rewrite list_run.
  destruct (parse_args (request_args w)) as [args|e].
  - destruct (filters_of int_of_str (request_args w) args params ∅).
    + unfold log_append, with_log. only_logged_done.
    + destruct (filters_from_args_only_logged int_of_str args
                  (log_append
                     [mkLogRecord INFO "Request to list Recommendations..."
                        no_arg] w))
        as (H1 & H2 & H3 & Hlog).
      unfold only_logged. cbn [snd].
      split; [by rewrite H1|split; [by rewrite H2|split; [by rewrite H3|]]].
      etrans; [|exact Hlog]. simpl. by apply prefix_app_r.
  - unfold log_append, with_log. only_logged_done.
Qed.

(** The create route, run. *)
Lemma create_run deserialize blank next_id url_for w :
  RecommendationCollection_post deserialize blank next_id url_for w =
  match deserialize blank (payload w) with
  | Ok r =>
      (Ok (JSON (serialize (created (next_id (db w)) (now w) r)), 201,
           [("Location", url_for (next_id (db w)))]),
       log_append
         [mkLogRecord INFO "Recommendation with new id [%s] created!"
            (LVal (VInt (next_id (db w))))]
         (with_db (insert (next_id (db w))
                     (columns (created (next_id (db w)) (now w) r)))
            (log_append
               [mkLogRecord INFO "Request to Create a Recommendation" no_arg;
                mkLogRecord DEBUG "Payload = %s" (LDict (payload w))]
               w)))
  | Raise e =>
      (Raise e,
       log_append
         [mkLogRecord INFO "Request to Create a Recommendation" no_arg;
          mkLogRecord DEBUG "Payload = %s" (LDict (payload w))]
         w)
  end.
Proof.
  unfold RecommendationCollection_post, Recommendations_create, logger, bind,
    gets, modify, lift, ret, raise, log_append.
  cbn [fst snd payload with_log].
  destruct (deserialize blank (payload w)) as [r|e].
  - unfold created, with_db, with_log. simpl. by rewrite <- !app_assoc.
  - unfold with_log. simpl. by rewrite <- !app_assoc.
Qed.

Lemma create_only_logged deserialize blank next_id url_for w :
  only_logged w
    (after (RecommendationCollection_post deserialize blank next_id url_for)
       w).
Proof.
  unfold after. rewrite create_run.
  destruct (deserialize blank (payload w)) as [r|e];
    unfold log_append, with_db, with_log; only_logged_done.
Qed.

(** X11: no request changes the query string, the payload or the clock, and
    none removes or rewrites a log record: what a handler leaves behind
    differs from what it found only in the table and in records added at
    the end of the log. This holds for the health check, the five routes on
    one recommendation, the list route and the create route, whatever they
    answer. *)
Theorem handlers_only_log int_of_str parse_args find_by_filters deserialize
    blank next_id url_for recommendation_id w :
  only_logged w (after health w)
  ∧ only_logged w (after (RecommendationResource_get recommendation_id) w)
  ∧ only_logged w
      (after (RecommendationResource_put deserialize recommendation_id) w)
  ∧ only_logged w (after (RecommendationResource_delete recommendation_id) w)
  ∧ only_logged w (after (LikeResource_put recommendation_id) w)
  ∧ only_logged w (after (DislikeResource_put recommendation_id) w)
  ∧ only_logged w
      (after (RecommendationCollection_get int_of_str parse_args
                find_by_filters) w)
  ∧ only_logged w
      (after (RecommendationCollection_post deserialize blank next_id url_for)
         w).
Proof.
  exact (conj (health_only_logged w)
        (conj (get_only_logged recommendation_id w)
        (conj (put_only_logged deserialize recommendation_id w)
        (conj (delete_only_logged recommendation_id w)
        (conj (like_only_logged recommendation_id w)
        (conj (dislike_only_logged recommendation_id w)
        (conj (list_only_logged int_of_str parse_args find_by_filters w)
              (create_only_logged deserialize blank next_id url_for w)))))))).
Qed.

(** X12: the list route never writes to the table. A refusal of the
    argument parser is what the route answers; else a refusal of the filter
    builder is; else the answer is 200 with the serialized objects that the
    store returns for the filters, in the order of the store. *)
Theorem list_get int_of_str parse_args find_by_filters w :
  db (after (RecommendationCollection_get int_of_str parse_args
               find_by_filters) w) = db w
  ∧ (∀ e, parse_args (request_args w) = Raise e →
          (RecommendationCollection_get int_of_str parse_args
             find_by_filters w).1 = Raise e)
  ∧ (∀ args, parse_args (request_args w) = Ok args →
       match (filters_from_args int_of_str args w).1 with
       | Ok f =>
           (RecommendationCollection_get int_of_str parse_args
              find_by_filters w).1 =
           Ok (serialize <$> find_by_filters f (db w), 200)
       | Raise e =>
           (RecommendationCollection_get int_of_str parse_args
              find_by_filters w).1 = Raise e
       end).
Proof.
  unfold after. rewrite list_run. split; [|split].
  - destruct (parse_args (request_args w)) as [args|e]; [|done].
    destruct (filters_of int_of_str (request_args w) args params ∅); [done|].
    rewrite filters_from_args_steps.
    by destruct (run_steps_snd int_of_str args params ∅
                   (log_append
                      [mkLogRecord INFO "Request to list Recommendations..."
                         no_arg] w)) as [rs ->].
  - by intros e ->.
  - intros args ->. rewrite filters_from_args_steps, run_steps_fst.
    by destruct (filters_of int_of_str (request_args w) args params ∅).
Qed.

(** A run of steps that raises raises what one of its steps raises. *)
Lemma filters_of_raise_step int_of_str ra args l : ∀ f e,
  filters_of int_of_str ra args l f = Raise e →
  ∃ p, p ∈ l ∧ step_value int_of_str ra args p = Raise e.
Proof.
  induction l as [|p l IH]; intros f e; simpl; [discriminate|].
  destruct (step_value int_of_str ra args p) as [[v|]|e'] eqn:Hp.
  - intros H. destruct (IH _ _ H) as (q & Hq & Hr).
    exists q. split; [by right|done].
  - intros H. destruct (IH _ _ H) as (q & Hq & Hr).
    exists q. split; [by right|done].
  - intros [= <-]. exists p. split; [by left|done].
Qed.

(** What [reqparse] lets through as an integer argument, [int] reads. *)
Lemma parse_declared_int int_of_str query decl : ∀ args k,
  parse_declared int_of_str decl query = Ok args →
  (∀ ty, (k, ty) ∈ decl → ty = TInt) →
  is_Some (arg args k) →
  ∃ n, int_ int_of_str (query !! k) = IntOk n.
Proof.
  induction decl as [|[name ty] decl IH]; intros args k; simpl.
  - intros [= <-] _ [v Hv]. by rewrite arg_empty in Hv.
  - destruct (parse_declared int_of_str decl query) as [args0|e];
      [|discriminate].
    intros Hargs Hty Hk.
    assert (∀ ty', (k, ty') ∈ decl → ty' = TInt) as Hty'.
    { intros ty' H. apply Hty. by right. }
    destruct (decide (name = k)) as [->|Hne].
    + rewrite (Hty ty) in Hargs by left.
      unfold int_. destruct (query !! k) as [s|].
      * destruct (int_of_str s) as [n|]; [by eexists|discriminate].
      * injection Hargs as <-. destruct Hk as [v Hv].
        unfold arg in Hv. by rewrite lookup_insert_eq in Hv.
    + apply (IH args0); [done|done|].
      destruct (query !! name) as [s|], ty;
        try destruct (int_of_str s); simplify_eq;
        by rewrite arg_insert_ne in Hk.
Qed.

Lemma parse_declared_reads_ints int_of_str :
  reads_ints int_of_str (parse_declared int_of_str recommendation_args).
Proof.
  intros query args k Hargs Hk. apply (parse_declared_int _ _ _ _ _ Hargs).
  intros ty. unfold recommendation_args, int_params in *.
  rewrite !elem_of_cons in Hk. rewrite !elem_of_cons.
  destruct Hk as [->|[->|[->|[->|Hk]]]]; [| | | |by apply elem_of_nil in Hk];
    intros H; repeat (destruct H as [[=]|H]; try done);
    by apply elem_of_nil in H.
Qed.

(** X13: behind an argument parser that lets an integer argument through
    only when [int] reads its text, the integer check of the filter builder
    never fires in the list route: a request that got past the parser is
    refused only for a type or a status that is not among the enumerated
    values, with the message that names the parameter and its values, and
    never with the message of [parse_int_param]. *)
Theorem list_get_refusals int_of_str parse_args find_by_filters w args e :
  reads_ints int_of_str parse_args →
  parse_args (request_args w) = Ok args →
  (RecommendationCollection_get int_of_str parse_args find_by_filters w).1 =
  Raise e →
  (∃ k valid_options v,
     (k, valid_options) ∈ enum_params ∧ arg args k = Some v
     ∧ (v ∉ VStr <$> valid_options)
     ∧ e = BadRequest ("Invalid " ++ k ++ ": must be one of "
                       ++ repr_list valid_options))
  ∧ e ≠ BadRequest "Invalid data type: must be an integer".
Proof.
  intros Hints Hargs. rewrite list_run, Hargs.
  destruct (filters_of int_of_str (request_args w) args params ∅)
    as [f|e'] eqn:Hf; [discriminate|].
  intros [= ->].
  destruct (filters_of_raise_step _ _ _ _ _ _ Hf) as ([k kd] & Hp & Hstep).
  unfold step_value in Hstep. simpl in Hstep.
  destruct (arg args k) as [v|] eqn:Hv; [|discriminate].
  assert (∃ opts, kd = KEnum opts ∧ (k, opts) ∈ enum_params
                  ∧ (v ∉ VStr <$> opts)
                  ∧ e = BadRequest ("Invalid " ++ k ++ ": must be one of "
                                    ++ repr_list opts))
    as (opts & -> & Hk & Hnot & ->).
  { destruct kd as [|opts|]; [| |discriminate].
    - assert (k ∈ int_params) as Hk.
      { unfold params in Hp. unfold int_params.
        rewrite !elem_of_cons in Hp. rewrite !elem_of_cons.
        destruct Hp as [[= ->]|[[= ->]|[[= ->]|[[= ->]|Hp]]]]; auto.
        destruct Hp as [[=]|[[=]|[[=]|[[=]|Hp]]]]. by apply elem_of_nil in Hp. }
      destruct (Hints _ _ k Hargs Hk ltac:(eauto)) as [n Hn].
      by rewrite Hn in Hstep.
    - exists opts. case_bool_decide; [discriminate|].
      injection Hstep as <-. repeat split; [|done].
      unfold params in Hp. unfold enum_params.
      rewrite !elem_of_cons in Hp. rewrite !elem_of_cons.
      destruct Hp as [[=]|[[=]|[[=]|[[=]|[[= -> ->]|[[= -> ->]|Hp]]]]]]; auto.
      destruct Hp as [[=]|[[=]|Hp]]. by apply elem_of_nil in Hp. }
  split; [by exists k, opts, v|].
  unfold enum_params in Hk. rewrite !elem_of_cons in Hk.
  destruct Hk as [[= -> ->]|[[= -> ->]|Hk]]; [done|done|].
  by apply elem_of_nil in Hk.
Qed.

Lemma list_get_refusals_witness :
  (RecommendationCollection_get ascii_int
     (parse_declared ascii_int recommendation_args) find_all
     bogus_status_world).1
  ≠ Raise (BadRequest "Invalid data type: must be an integer").
Proof.
  intros H.
  eapply (list_get_refusals ascii_int
            (parse_declared ascii_int recommendation_args) find_all
            bogus_status_world);
    [apply parse_declared_reads_ints | reflexivity | exact H | reflexivity].
Defined.

(** X14: the create route. When the store hands out an id that is not in
    the table, a payload that [deserialize] accepts is answered 201 with the
    record under that id and a Location header made from the same id, the
    row is added, every row that was there is still there unchanged, and a
    get of the new id at any later time answers 200 with the body the create
    returned. A payload that [deserialize] refuses is answered with its
    exception and the table stays as it was. *)
Theorem create_then_get deserialize blank next_id url_for t w :
  db w !! next_id (db w) = None →
  (∀ r, deserialize blank (payload w) = Ok r →
     (RecommendationCollection_post deserialize blank next_id url_for w).1 =
     Ok (JSON (serialize (created (next_id (db w)) (now w) r)), 201,
         [("Location", url_for (next_id (db w)))])
     ∧ db (after (RecommendationCollection_post deserialize blank next_id
                    url_for) w) =
       <[next_id (db w) := columns (created (next_id (db w)) (now w) r)]>
         (db w)
     ∧ (∀ j c, db w !! j = Some c →
               db (after (RecommendationCollection_post deserialize blank
                            next_id url_for) w) !! j = Some c)
     ∧ (RecommendationResource_get (next_id (db w))
          (tick t (after (RecommendationCollection_post deserialize blank
                            next_id url_for) w))).1 =
       Ok (JSON (serialize (created (next_id (db w)) (now w) r)), 200))
  ∧ (∀ e, deserialize blank (payload w) = Raise e →
       (RecommendationCollection_post deserialize blank next_id url_for w).1 =
       Raise e
       ∧ db (after (RecommendationCollection_post deserialize blank next_id
                      url_for) w) = db w).
Proof.
  intros Hfresh. unfold after. rewrite create_run. split.
  - intros r ->. split; [done|]. split; [done|]. split.
    + intros j c Hj. simpl. rewrite lookup_insert_ne; [done|].
      intros <-. by rewrite Hfresh in Hj.
    + rewrite (get_present _ _
                 (columns (created (next_id (db w)) (now w) r))); [done|].
      simpl. apply lookup_insert_eq.
  - by intros e ->.
Qed.

Lemma create_then_get_witness :
  (RecommendationResource_get 3
     (tick 900
        (after (RecommendationCollection_post deserialize_payload
                  example_blank max_id_succ example_url_for)
           create_world))).1 =
  Ok (JSON (serialize (mkRecommendations 3
                         (mkColumns 11 22 up_sell draft 5 0 500 500))), 200).
Proof.
  pose proof (create_then_get deserialize_payload example_blank max_id_succ
                example_url_for 900 create_world
                ltac:(vm_compute; reflexivity)) as [H _].
  destruct (H (mkRecommendations 99 (mkColumns 11 22 up_sell draft 5 0 0 0))
              ltac:(vm_compute; reflexivity)) as (_ & _ & _ & Hg).
  exact Hg.
Defined.
